(** * Device-share request handling and reservation pods of koordinator

    A shallow embedding of
    - [pkg/scheduler/plugins/deviceshare/utils.go]: validation, conversion
      and patching of GPU / RDMA / FPGA requests, and the two memory unit
      conversions;
    - [pkg/util/reservation/reservation.go]: the reserve pod built from a
      reservation;
    - the reader of the host's memory statistics, by its test
      [Test_readMemInfo].

    Go values are modelled as the code has them: [int64] as [Z] with the
    wrap-around written out, [float64] as the IEEE-754 binary64 numbers of
    [SpecFloat], Go maps as [gmap] (a [nil] map is [None]), and the maps a
    pod's containers point to as objects of a store. The definitions come
    first, the facts about them after; the facts on binary64 arithmetic
    measure rounding errors in the real numbers. *)

From Stdlib Require Import ZArith NArith Lia Bool List Ascii String.
From Stdlib Require Import DecimalString DecimalN.
From Stdlib Require Import Floats.SpecFloat.
From Stdlib Require Import Reals Lra.
From stdpp Require Import gmap strings list fin_maps.

Local Open Scope Z_scope.

(** ** Go scalars *)
Module Go.

(** What a Go operation yields: a value, or a run-time panic. *)
Inductive panic :=
| DivideByZero          (* integer divide by zero *)
| NilMapWrite           (* assignment to entry in nil map *)
| NilDereference.       (* nil pointer dereference *)

Inductive result (A : Type) :=
| Ok (a : A)
| Panic (p : panic).
Arguments Ok {A} a.
Arguments Panic {A} p.

Definition int64_min : Z := - 2 ^ 63.
Definition int64_max : Z := 2 ^ 63 - 1.

Definition in_int64 (z : Z) : Prop := int64_min <= z <= int64_max.

(** Two's complement wrap-around of an [int64] result. *)
Definition wrap64 (z : Z) : Z := (z + 2 ^ 63) mod 2 ^ 64 - 2 ^ 63.

Definition int64_mul (a b : Z) : Z := wrap64 (a * b).

(** [a / b] on [int64]: truncated, panics on a zero divisor. *)
Definition int64_div (a b : Z) : result Z :=
  if b =? 0 then Panic DivideByZero else Ok (wrap64 (Z.quot a b)).

(** [a % b] for a non-zero constant divisor. *)
Definition int64_rem (a b : Z) : Z := Z.rem a b.

#[global] Instance result_bind : MBind result :=
  fun A B f m =>
    match m with
    | Ok a => f a
    | Panic p => Panic p
    end.

(** [float64]: IEEE-754 binary64, round to nearest even. *)
Definition prec : Z := 53.
Definition emax : Z := 1024.

(** [float64(x)] of an [int64]. *)
Definition float64_of_int64 (x : Z) : spec_float :=
  binary_normalize prec emax x 0 false.

Definition float64_div (x y : spec_float) : spec_float := SFdiv prec emax x y.
Definition float64_mul (x y : spec_float) : spec_float := SFmul prec emax x y.

(** [int64(f)]: the fraction is discarded (truncation towards zero); where
    the value does not fit, or [f] is not finite, the result is the
    implementation's, [indef f]. *)
Definition float64_to_int64 (indef : spec_float -> Z) (f : spec_float) : Z :=
  match f with
  | S754_zero _ => 0
  | S754_finite s m e =>
      let a := if 0 <=? e then Z.shiftl (Zpos m) e else Z.shiftr (Zpos m) (- e) in
      let v := if s then - a else a in
      if (int64_min <=? v) && (v <=? int64_max) then v else indef f
  | _ => indef f
  end.

(** What amd64 gives for the conversions Go leaves open: 0x8000000000000000. *)
Definition amd64_indefinite (f : spec_float) : Z := int64_min.

End Go.

(** ** Reading binary64 numbers *)
Module Float64Spec.

(** The quotient [X / D] rounded to an integer: to the nearest one, and to
    the even one on a tie. *)
Definition rne (X D : Z) : Z :=
  let m := X / D in
  let rho := X mod D in
  if 2 * rho <? D then m
  else if D <? 2 * rho then m + 1
  else if Z.even m then m else m + 1.

(** A shift record holds the integer part of [X / D], whether the fraction
    reaches one half, and whether it is neither zero nor one half. *)
Definition represents (rec : shr_record) (X D : Z) : Prop :=
  shr_m rec = X / D
  /\ shr_r rec = (D <=? 2 * (X mod D))
  /\ shr_s rec = negb ((X mod D =? 0) || (2 * (X mod D) =? D)).

(** A location tells where the fraction of [X / D] lies. *)
Definition describes (l : location) (X D : Z) : Prop :=
  match l with
  | loc_Exact => X mod D = 0
  | loc_Inexact Lt => 0 < 2 * (X mod D) < D
  | loc_Inexact Eq => 2 * (X mod D) = D
  | loc_Inexact Gt => D < 2 * (X mod D)
  end.

(** The float a rounded mantissa [m2] in [[2^52, 2^53]] makes at the
    exponent [e]. *)
Definition mkfloat (s : bool) (m2 e : Z) : spec_float :=
  if m2 <? 2 ^ 53 then S754_finite s (Z.to_pos m2) e
  else S754_finite s (Z.to_pos (2 ^ 52)) (e + 1).

(** A mantissa of exactly 53 bits. *)
Definition normalized (m : positive) : Prop := 2 ^ 52 <= Zpos m < 2 ^ 53.

(** Powers of two, and the real number a mantissa and an exponent stand
    for. *)
Definition bpow (e : Z) : R := powerRZ 2 e.

Definition val (m e : Z) : R := (IZR m * bpow e)%R.

(** The unit roundoff of binary64. *)
Definition u : R := (/ IZR (2 ^ 53))%R.

(** [r] is an integer nearest to [100 * b / T]. *)
Definition nearestPercent (r b T : Z) : Prop := 2 * Z.abs (r * T - 100 * b) <= T.

End Float64Spec.

(** ** k8s.io/apimachinery/pkg/api/resource *)
Module Resource.

Inductive Format :=
| FormatNone            (* the zero value of the string type *)
| DecimalExponent
| BinarySI
| DecimalSI.

(** A [resource.Quantity], by what this code reads and writes of it: the
    [int64] that [Value()] returns and the format [NewQuantity] sets. *)
Record Quantity := NewQuantity { Value : Z; QFormat : Format }.

(** The zero value, which indexing a map at a missing key gives. *)
Definition zeroQuantity : Quantity := NewQuantity 0 FormatNone.

#[global] Instance Format_eq_dec : EqDecision Format.
Proof. solve_decision. Defined.

#[global] Instance Quantity_eq_dec : EqDecision Quantity.
Proof. solve_decision. Defined.

End Resource.

(** ** k8s.io/api/core/v1: resource lists *)
Module Corev1.
Import Resource.

Definition ResourceName := string.

(** [corev1.ResourceList] is [map[ResourceName]resource.Quantity];
    [None] is the [nil] map. *)
Definition ResourceList := option (gmap string Quantity).

(** [len(rl)] *)
Definition rl_len (rl : ResourceList) : Z :=
  match rl with
  | None => 0
  | Some m => Z.of_nat (size m)
  end.

(** [q, ok := rl[name]] *)
Definition rl_get (rl : ResourceList) (name : ResourceName) : option Quantity :=
  match rl with
  | None => None
  | Some m => m !! name
  end.

(** [rl[name]] *)
Definition rl_index (rl : ResourceList) (name : ResourceName) : Quantity :=
  match rl_get rl name with
  | Some q => q
  | None => zeroQuantity
  end.

(** [rl[name] = q] *)
Definition rl_store (rl : ResourceList) (name : ResourceName) (q : Quantity)
  : Go.result ResourceList :=
  match rl with
  | None => Go.Panic Go.NilMapWrite
  | Some m => Go.Ok (Some (<[name := q]> m))
  end.

(** [podRequest == nil || len(podRequest) == 0] *)
Definition rl_empty (rl : ResourceList) : bool :=
  match rl with
  | None => true
  | Some _ => rl_len rl =? 0
  end.

End Corev1.

(** ** apis/extension and apis/scheduling/v1alpha1 *)
Module Apiext.

(** Modelled from the spec: the resource-name constants of
    [apis/extension], which is not among the sources. The spec fixes five
    GPU names (native whole device, normalized whole device, core-share,
    memory bytes, memory-ratio) and one name each for RDMA and FPGA; the
    strings are the ones the comments of [utils.go] use. *)
Definition DomainPrefix : string := "koordinator.sh/".
Definition ResourceNvidiaGPU : string := "nvidia.com/gpu".
Definition ResourceGPU : string := "koordinator.sh/gpu".
Definition ResourceGPUCore : string := "koordinator.sh/gpu-core".
Definition ResourceGPUMemory : string := "koordinator.sh/gpu-memory".
Definition ResourceGPUMemoryRatio : string := "koordinator.sh/gpu-memory-ratio".
Definition ResourceRDMA : string := "koordinator.sh/rdma".
Definition ResourceFPGA : string := "koordinator.sh/fpga".

(** Modelled from the spec: [schedulingv1alpha1.DeviceType], an enum over
    GPU, RDMA and FPGA. *)
Inductive DeviceType := GPU | RDMA | FPGA.

Definition DeviceType_string (t : DeviceType) : string :=
  match t with
  | GPU => "gpu"
  | RDMA => "rdma"
  | FPGA => "fpga"
  end.

End Apiext.

(** ** pkg/scheduler/plugins/deviceshare/utils.go : validation *)
Module Deviceshare.
Import Resource Corev1 Apiext.

(** The errors [fmt.Errorf] builds, by message and arguments. *)
Inductive error :=
| ErrEmptyRequest
    (* "pod request should not be empty" *)
| ErrUnsupportedDeviceType (t : DeviceType)
    (* "device type %v is not supported yet" *)
| ErrInvalidQuantity (name : string) (v : Z)
    (* "failed to validate %v: %v" *)
| ErrInvalidCombination (names : gset string).
    (* "request is not valid, current combination: %v" *)

(** An early [return r] inside a function body, or falling through with
    the value of a local. *)
Inductive early (R A : Type) :=
| Continue (a : A)
| Return (r : R).
Arguments Continue {R A} a.
Arguments Return {R A} r.

#[global] Instance early_bind {R} : MBind (early R) :=
  fun A B f m =>
    match m with
    | Continue a => f a
    | Return r => Return r
    end.

Definition run {R} (m : early R R) : R :=
  match m with
  | Continue r => r
  | Return r => r
  end.

Definition NvidiaGPUExist : Z := Z.shiftl 1 0.
Definition KoordGPUExist : Z := Z.shiftl 1 1.
Definition GPUCoreExist : Z := Z.shiftl 1 2.
Definition GPUMemoryExist : Z := Z.shiftl 1 3.
Definition GPUMemoryRatioExist : Z := Z.shiftl 1 4.

Definition DeviceResourceNames (t : DeviceType) : list ResourceName :=
  match t with
  | GPU => [ResourceNvidiaGPU; ResourceGPU; ResourceGPUCore;
            ResourceGPUMemory; ResourceGPUMemoryRatio]
  | RDMA => [ResourceRDMA]
  | FPGA => [ResourceFPGA]
  end.

(** [_, ok := rl[name]; ok] *)
Definition rl_has (rl : ResourceList) (name : ResourceName) : bool :=
  match rl_get rl name with
  | Some _ => true
  | None => false
  end.

(** [v > 100 && v%100 != 0] *)
Definition badRatio (v : Z) : bool :=
  (100 <? v) && negb (Go.int64_rem v 100 =? 0).

Definition validateCommonDeviceRequest (podRequest : ResourceList)
    (deviceType : DeviceType) : option error :=
  if rl_empty podRequest then Some ErrEmptyRequest
  else
    match
      match deviceType with
      | FPGA => Continue (rl_index podRequest ResourceFPGA)
      | RDMA => Continue (rl_index podRequest ResourceRDMA)
      | _ => Return (Some (ErrUnsupportedDeviceType deviceType))
      end
    with
    | Return r => r
    | Continue commonDevice =>
        if badRatio (Value commonDevice)
        then Some (ErrInvalidQuantity
                     (DomainPrefix +:+ DeviceType_string deviceType)
                     (Value commonDevice))
        else None
    end.

(** [quotav1.ResourceNames(quotav1.Mask(podRequest, names))]: the keys of
    the request that are among [names]; Go ranges over the masked map in
    no fixed order, so the result is kept as a set. *)
Definition maskedResourceNames (podRequest : ResourceList)
    (names : list ResourceName) : gset string :=
  list_to_set (filter (fun n => rl_has podRequest n = true) names).

Definition ValidateGPURequest (podRequest : ResourceList) : Z * option error :=
  run (
    gpuCombination ← Continue 0;
    gpuCombination ←
      (if rl_empty podRequest
       then Return (gpuCombination, Some ErrEmptyRequest)
       else Continue gpuCombination);
    gpuCombination ←
      match rl_get podRequest ResourceNvidiaGPU with
      | Some _ => Continue (Z.lor gpuCombination NvidiaGPUExist)
      | None => Continue gpuCombination
      end;
    gpuCombination ←
      match rl_get podRequest ResourceGPU with
      | Some koordGPU =>
          if badRatio (Value koordGPU)
          then Return (gpuCombination,
                       Some (ErrInvalidQuantity ResourceGPU (Value koordGPU)))
          else Continue (Z.lor gpuCombination KoordGPUExist)
      | None => Continue gpuCombination
      end;
    gpuCombination ←
      match rl_get podRequest ResourceGPUCore with
      | Some gpuCore =>
          if badRatio (Value gpuCore)
          then Return (gpuCombination,
                       Some (ErrInvalidQuantity ResourceGPUCore (Value gpuCore)))
          else Continue (Z.lor gpuCombination GPUCoreExist)
      | None => Continue gpuCombination
      end;
    gpuCombination ←
      match rl_get podRequest ResourceGPUMemory with
      | Some _ => Continue (Z.lor gpuCombination GPUMemoryExist)
      | None => Continue gpuCombination
      end;
    gpuCombination ←
      match rl_get podRequest ResourceGPUMemoryRatio with
      | Some gpuMemRatio =>
          if badRatio (Value gpuMemRatio)
          then Return (gpuCombination,
                       Some (ErrInvalidQuantity ResourceGPUMemoryRatio (Value gpuMemRatio)))
          else Continue (Z.lor gpuCombination GPUMemoryRatioExist)
      | None => Continue gpuCombination
      end;
    if (gpuCombination =? NvidiaGPUExist)
       || (gpuCombination =? KoordGPUExist)
       || (gpuCombination =? Z.lor GPUCoreExist GPUMemoryExist)
       || (gpuCombination =? Z.lor GPUCoreExist GPUMemoryRatioExist)
    then Return (gpuCombination, None)
    else Return (gpuCombination,
                 Some (ErrInvalidCombination
                         (maskedResourceNames podRequest (DeviceResourceNames GPU))))).


(** *** Conversion *)

Definition ConvertGPUResource (podRequest : ResourceList) (combination : Z)
  : ResourceList :=
  if rl_empty podRequest then None
  else if combination =? Z.lor GPUCoreExist GPUMemoryExist then
    Some {[ ResourceGPUCore := rl_index podRequest ResourceGPUCore;
            ResourceGPUMemory := rl_index podRequest ResourceGPUMemory ]}
  else if combination =? Z.lor GPUCoreExist GPUMemoryRatioExist then
    Some {[ ResourceGPUCore := rl_index podRequest ResourceGPUCore;
            ResourceGPUMemoryRatio := rl_index podRequest ResourceGPUMemoryRatio ]}
  else if combination =? KoordGPUExist then
    Some {[ ResourceGPUCore := rl_index podRequest ResourceGPU;
            ResourceGPUMemoryRatio := rl_index podRequest ResourceGPU ]}
  else if combination =? NvidiaGPUExist then
    let nvidiaGpu := rl_index podRequest ResourceNvidiaGPU in
    Some {[ ResourceGPUCore :=
              NewQuantity (Go.int64_mul (Value nvidiaGpu) 100) DecimalSI;
            ResourceGPUMemoryRatio :=
              NewQuantity (Go.int64_mul (Value nvidiaGpu) 100) DecimalSI ]}
  else None.

(** *** Unit conversions *)

Definition memRatioToBytes (ratio totalMemory : Quantity) : Go.result Quantity :=
  v ← Go.int64_div (Go.int64_mul (Value ratio) (Value totalMemory)) 100;
  Go.Ok (NewQuantity v BinarySI).

Section Float64.
(** Go leaves [int64(f)] to the implementation when [f] is not finite or
    does not fit: [convIndefinite] is what the platform gives there. *)
Variable convIndefinite : spec_float -> Z.

Definition memBytesToRatio (bytes totalMemory : Quantity) : Quantity :=
  NewQuantity
    (Go.float64_to_int64 convIndefinite
       (Go.float64_mul
          (Go.float64_div (Go.float64_of_int64 (Value bytes))
                          (Go.float64_of_int64 (Value totalMemory)))
          (Go.float64_of_int64 100)))
    DecimalSI.

(** [deviceResources] is [map[int]corev1.ResourceList], keyed by minor. *)
Definition deviceResources := gmap Z (gmap string Quantity).

(** [for i := range nodeDeviceTotal { activeMinor = i; break }]: some key
    of the map, in no fixed order, and 0 on an empty map. *)
Definition rangeFirst (nodeDeviceTotal : deviceResources) (activeMinor : Z) : Prop :=
  is_Some (nodeDeviceTotal !! activeMinor)
  \/ (nodeDeviceTotal = ∅ /\ activeMinor = 0).

(** The body of [fillGPUTotalMem] once [activeMinor] is chosen; the
    request is updated in place, the updated map is returned. *)
Definition fillGPUTotalMem (activeMinor : Z) (nodeDeviceTotal : deviceResources)
    (podRequest : ResourceList) : Go.result ResourceList :=
  let totalMem := rl_index (nodeDeviceTotal !! activeMinor) ResourceGPUMemory in
  match rl_get podRequest ResourceGPUMemory with
  | Some gpuMem =>
      rl_store podRequest ResourceGPUMemoryRatio (memBytesToRatio gpuMem totalMem)
  | None =>
      let gpuMemRatio := rl_index podRequest ResourceGPUMemoryRatio in
      b ← memRatioToBytes gpuMemRatio totalMem;
      rl_store podRequest ResourceGPUMemory b
  end.
End Float64.

(** *** Patching the pod *)

(** Go maps are references: the request maps of a pod's containers live
    in a store, and a container holds the address of its map ([None] is
    the [nil] map). Two containers may hold the same address. *)
Definition loc := positive.
Abbreviation store := (gmap loc (gmap string Quantity)).

Record Container := { ContainerName : string; Requests : option loc }.

(** [pod.Spec.Containers], all [patchContainerGPUResource] reads of the
    (non-nil) pod. *)
Record Pod := { Containers : list Container }.

(** The map at an address. *)
Definition deref (σ : store) (l : loc) : gmap string Quantity :=
  match σ !! l with
  | Some m => m
  | None => ∅
  end.

(** The inner loop over the GPU names, with its [break]. *)
Definition needPatch (reqs : gmap string Quantity) : bool :=
  existsb (fun v => bool_decide (is_Some (reqs !! v))) (DeviceResourceNames GPU).

(** [for _, v := range {core, memory, ratio} { reqs[v] = podRequest[v] }];
    [podRequest] is only read, and each key is read before it is written,
    so its value at the call decides the result even when it is the map
    being patched. *)
Definition patchRequests (podRequest : ResourceList) (reqs : gmap string Quantity)
  : gmap string Quantity :=
  foldl (fun r v => <[v := rl_index podRequest v]> r) reqs
        [ResourceGPUCore; ResourceGPUMemory; ResourceGPUMemoryRatio].

Fixpoint patchContainers (containers : list Container) (podRequest : ResourceList)
    (σ : store) : store :=
  match containers with
  | [] => σ
  | container :: rest =>
      match Requests container with
      | None => patchContainers rest podRequest σ
      | Some l =>
          let reqs := deref σ l in
          if needPatch reqs
          then <[l := patchRequests podRequest reqs]> σ
          else patchContainers rest podRequest σ
      end
  end.

Definition patchContainerGPUResource (pod : Pod) (podRequest : ResourceList)
    (σ : store) : store :=
  patchContainers (Containers pod) podRequest σ.

End Deviceshare.

(** ** pkg/util/reservation/reservation.go *)
Module Reservation.

(** [metav1.ObjectMeta], by the fields the code reads or writes; the maps
    may be [nil]. *)
Record ObjectMeta := {
  Name : string;
  Namespace : string;
  UID : string;
  Labels : option (gmap string string);
  Annotations : option (gmap string string)
}.

(** [corev1.PodSpec], by the fields the code reads or writes. *)
Record PodSpec := {
  NodeName : string;
  SchedulerName : string
}.

Record Pod := {
  PodMeta : ObjectMeta;
  Spec : PodSpec;
  Phase : string                       (* Status.Phase *)
}.

Record PodTemplateSpec := {
  TemplateMeta : ObjectMeta;
  TemplateSpec : PodSpec
}.

Record ReservationCondition := {
  CondType : string;
  CondStatus : string;
  CondReason : string
}.

Record Reservation := {
  RMeta : ObjectMeta;
  Template : option PodTemplateSpec;   (* Spec.Template, a pointer *)
  RPhase : string;                     (* Status.Phase *)
  RNodeName : string;                  (* Status.NodeName *)
  Conditions : list ReservationCondition
}.

(** Modelled from the spec: constants of [k8s.io/api/core/v1] and of
    [apis/scheduling/v1alpha1], which are not among the sources. *)
Definition NamespaceDefault : string := "default".
Definition DefaultSchedulerName : string := "default-scheduler".
Definition PodSucceeded : string := "Succeeded".
Definition PodFailed : string := "Failed".
Definition ReservationSucceeded : string := "Succeeded".
Definition ReservationFailed : string := "Failed".
Definition ReservationConditionReady : string := "Ready".
Definition ConditionStatusFalse : string := "False".
Definition ReasonReservationExpired : string := "Expired".

Definition emptyMeta : ObjectMeta :=
  {| Name := ""; Namespace := ""; UID := ""; Labels := None; Annotations := None |}.

(** [&corev1.Pod{}] *)
Definition emptyPod : Pod :=
  {| PodMeta := emptyMeta;
     Spec := {| NodeName := ""; SchedulerName := "" |};
     Phase := "" |}.

Definition setMeta (f : ObjectMeta -> ObjectMeta) (p : Pod) : Pod :=
  {| PodMeta := f (PodMeta p); Spec := Spec p; Phase := Phase p |}.
Definition setSpec (f : PodSpec -> PodSpec) (p : Pod) : Pod :=
  {| PodMeta := PodMeta p; Spec := f (Spec p); Phase := Phase p |}.
Definition setPhase (ph : string) (p : Pod) : Pod :=
  {| PodMeta := PodMeta p; Spec := Spec p; Phase := ph |}.

Definition setName (n : string) (m : ObjectMeta) : ObjectMeta :=
  {| Name := n; Namespace := Namespace m; UID := UID m;
     Labels := Labels m; Annotations := Annotations m |}.
Definition setUID (u : string) (m : ObjectMeta) : ObjectMeta :=
  {| Name := Name m; Namespace := Namespace m; UID := u;
     Labels := Labels m; Annotations := Annotations m |}.
Definition setNamespace (n : string) (m : ObjectMeta) : ObjectMeta :=
  {| Name := Name m; Namespace := n; UID := UID m;
     Labels := Labels m; Annotations := Annotations m |}.
Definition setLabels (l : option (gmap string string)) (m : ObjectMeta) : ObjectMeta :=
  {| Name := Name m; Namespace := Namespace m; UID := UID m;
     Labels := l; Annotations := Annotations m |}.
Definition setAnnotations (a : option (gmap string string)) (m : ObjectMeta) : ObjectMeta :=
  {| Name := Name m; Namespace := Namespace m; UID := UID m;
     Labels := Labels m; Annotations := a |}.
Definition setNodeName (n : string) (sp : PodSpec) : PodSpec :=
  {| NodeName := n; SchedulerName := SchedulerName sp |}.
Definition setSchedulerName (n : string) (sp : PodSpec) : PodSpec :=
  {| NodeName := NodeName sp; SchedulerName := n |}.

(** [len(s)], in bytes *)
Definition len (s : string) : Z := Z.of_nat (String.length s).

(** [m[k]] on a [map[string]string], [nil] or not *)
Definition index (m : option (gmap string string)) (k : string) : string :=
  match m with
  | Some m' => match m' !! k with Some v => v | None => "" end
  | None => ""
  end.

(** [if m == nil { m = map[string]string{} }] *)
Definition orEmpty (m : option (gmap string string)) : gmap string string :=
  match m with
  | Some m' => m'
  | None => ∅
  end.

(** [for k, v := range src { dst[k] = v }] *)
Definition rangeAssign (src : option (gmap string string)) (dst : gmap string string)
  : gmap string string :=
  match src with
  | Some s => map_fold (fun k v acc => <[k := v]> acc) dst s
  | None => dst
  end.

Definition GetReservationKey (r : Reservation) : string := UID (RMeta r).

Definition GetReservePodKey (pod : Pod) : string := UID (PodMeta pod).

Definition GetReservationNodeName (r : Reservation) : string := RNodeName r.

Definition GetReservationSchedulerName (r : option Reservation) : string :=
  match r with
  | None => DefaultSchedulerName
  | Some r' =>
      match Template r' with
      | None => DefaultSchedulerName
      | Some t =>
          if len (SchedulerName (TemplateSpec t)) <=? 0
          then DefaultSchedulerName
          else SchedulerName (TemplateSpec t)
      end
  end.

Definition IsReservationSucceeded (r : option Reservation) : bool :=
  match r with
  | None => false
  | Some r' => String.eqb (RPhase r') ReservationSucceeded
  end.

Definition IsReservationFailed (r : option Reservation) : bool :=
  match r with
  | None => false
  | Some r' => String.eqb (RPhase r') ReservationFailed
  end.

Fixpoint firstReady (conditions : list ReservationCondition) : bool :=
  match conditions with
  | [] => false
  | condition :: rest =>
      if String.eqb (CondType condition) ReservationConditionReady
      then String.eqb (CondStatus condition) ConditionStatusFalse
           && String.eqb (CondReason condition) ReasonReservationExpired
      else firstReady rest
  end.

Definition IsReservationExpired (r : option Reservation) : bool :=
  match r with
  | None => false
  | Some r' =>
      if negb (String.eqb (RPhase r') ReservationFailed) then false
      else firstReady (Conditions r')
  end.

Section Annotations.
(** [extension.SchedulingDomainPrefix], a constant of a package that
    is not among the sources: any string. *)
Variable SchedulingDomainPrefix : string.

Definition AnnotationReservePod : string :=
  SchedulingDomainPrefix +:+ "/reserve-pod".
Definition AnnotationReservationName : string :=
  SchedulingDomainPrefix +:+ "/reservation-name".
Definition AnnotationReservationNode : string :=
  SchedulingDomainPrefix +:+ "/reservation-node".

(** [r] is dereferenced at once, so it is taken non-nil. *)
Definition NewReservePod (r : Reservation) : Pod :=
  let reservePod := emptyPod in
  let reservePod :=
    match Template r with
    | Some t =>
        setSpec (fun _ => TemplateSpec t)
                (setMeta (fun _ => TemplateMeta t) reservePod)
    | None => reservePod
    end in
  let reservePod := setMeta (setName (GetReservationKey r)) reservePod in
  let reservePod := setMeta (setUID (UID (RMeta r))) reservePod in
  let reservePod :=
    if len (Namespace (PodMeta reservePod)) <=? 0
    then setMeta (setNamespace NamespaceDefault) reservePod
    else reservePod in
  let labels := orEmpty (Labels (PodMeta reservePod)) in
  let labels := rangeAssign (Labels (RMeta r)) labels in
  let reservePod := setMeta (setLabels (Some labels)) reservePod in
  let annotations := orEmpty (Annotations (PodMeta reservePod)) in
  let annotations := rangeAssign (Annotations (RMeta r)) annotations in
  let annotations := <[AnnotationReservePod := "true"]> annotations in
  let annotations := <[AnnotationReservationName := Name (RMeta r)]> annotations in
  let '(annotations, reservePod) :=
    if 0 <? len (NodeName (Spec reservePod))
    then (<[AnnotationReservationNode := NodeName (Spec reservePod)]> annotations,
          setSpec (setNodeName "") reservePod)
    else (annotations, reservePod) in
  let reservePod := setMeta (setAnnotations (Some annotations)) reservePod in
  let nodeName := GetReservationNodeName r in
  let reservePod :=
    if 0 <? len nodeName
    then setSpec (setNodeName nodeName) reservePod
    else reservePod in
  let reservePod :=
    if IsReservationSucceeded (Some r) then setPhase PodSucceeded reservePod
    else if IsReservationExpired (Some r) || IsReservationFailed (Some r)
         then setPhase PodFailed reservePod
         else reservePod in
  setSpec (setSchedulerName (GetReservationSchedulerName (Some r))) reservePod.

Definition IsReservePod (pod : option Pod) : bool :=
  match pod with
  | None => false
  | Some p =>
      match Annotations (PodMeta p) with
      | None => false
      | Some _ => String.eqb (index (Annotations (PodMeta p)) AnnotationReservePod) "true"
      end
  end.

Definition GetReservePodNodeName (pod : Pod) : string :=
  index (Annotations (PodMeta pod)) AnnotationReservationNode.

Definition GetReservationNameFromReservePod (pod : Pod) : string :=
  index (Annotations (PodMeta pod)) AnnotationReservationName.
End Annotations.

(** *** A sample reservation *)

Definition sampleReservation : Reservation :=
  {| RMeta := {| Name := "gpu-hold"; Namespace := ""; UID := "7f3a";
                 Labels := None;
                 Annotations := Some {[ "owner" := "team-a" ]} |};
     Template := Some {| TemplateMeta := emptyMeta;
                         TemplateSpec := {| NodeName := "node-1";
                                            SchedulerName := "" |} |};
     RPhase := ReservationFailed;
     RNodeName := "";
     Conditions := [] |}.

End Reservation.

(** ** The memory statistics file of the host *)
Module Meminfo.

(** The fields of [MemInfo], all [uint64], in KiB. *)
Inductive Field :=
  | MemTotal | MemFree | MemAvailable | Buffers | Cached | SwapCached
  | Active | Inactive | ActiveAnon | InactiveAnon | ActiveFile
  | InactiveFile | Unevictable | Mlocked | SwapTotal | SwapFree | Dirty
  | Writeback | AnonPages | Mapped | Shmem | Slab | SReclaimable
  | SUnreclaim | KernelStack | PageTables | NFS_Unstable | Bounce
  | WritebackTmp | CommitLimit | Committed_AS | VmallocTotal | VmallocUsed
  | VmallocChunk | HardwareCorrupted | AnonHugePages | HugePages_Total
  | HugePages_Free | HugePages_Rsvd | HugePages_Surp | Hugepagesize
  | DirectMap4k | DirectMap2M | DirectMap1G.

#[global] Instance Field_eq_dec : EqDecision Field.
Proof. solve_decision. Defined.

Definition allFields : list Field :=
  [MemTotal; MemFree; MemAvailable; Buffers; Cached; SwapCached; Active;
  Inactive; ActiveAnon; InactiveAnon; ActiveFile; InactiveFile;
  Unevictable; Mlocked; SwapTotal; SwapFree; Dirty; Writeback; AnonPages;
  Mapped; Shmem; Slab; SReclaimable; SUnreclaim; KernelStack; PageTables;
  NFS_Unstable; Bounce; WritebackTmp; CommitLimit; Committed_AS;
  VmallocTotal; VmallocUsed; VmallocChunk; HardwareCorrupted;
  AnonHugePages; HugePages_Total; HugePages_Free; HugePages_Rsvd;
  HugePages_Surp; Hugepagesize; DirectMap4k; DirectMap2M; DirectMap1G].

(** The struct, as the value of each field. *)
Definition MemInfo := Field -> N.

(** [MemInfo{}] *)
Definition emptyInfo : MemInfo := fun _ => 0%N.

(** [info.f = t] *)
Definition setField (f : Field) (t : N) (info : MemInfo) : MemInfo :=
  fun g => if decide (f = g) then t else info g.

(** The key of each field in the file. *)
Definition fieldKeys : list (string * Field) :=
  [("MemTotal", MemTotal); ("MemFree", MemFree);
  ("MemAvailable", MemAvailable); ("Buffers", Buffers); ("Cached", Cached);
  ("SwapCached", SwapCached); ("Active", Active); ("Inactive", Inactive);
  ("Active(anon)", ActiveAnon); ("Inactive(anon)", InactiveAnon);
  ("Active(file)", ActiveFile); ("Inactive(file)", InactiveFile);
  ("Unevictable", Unevictable); ("Mlocked", Mlocked);
  ("SwapTotal", SwapTotal); ("SwapFree", SwapFree); ("Dirty", Dirty);
  ("Writeback", Writeback); ("AnonPages", AnonPages); ("Mapped", Mapped);
  ("Shmem", Shmem); ("Slab", Slab); ("SReclaimable", SReclaimable);
  ("SUnreclaim", SUnreclaim); ("KernelStack", KernelStack);
  ("PageTables", PageTables); ("NFS_Unstable", NFS_Unstable);
  ("Bounce", Bounce); ("WritebackTmp", WritebackTmp);
  ("CommitLimit", CommitLimit); ("Committed_AS", Committed_AS);
  ("VmallocTotal", VmallocTotal); ("VmallocUsed", VmallocUsed);
  ("VmallocChunk", VmallocChunk); ("HardwareCorrupted", HardwareCorrupted);
  ("AnonHugePages", AnonHugePages); ("HugePages_Total", HugePages_Total);
  ("HugePages_Free", HugePages_Free); ("HugePages_Rsvd", HugePages_Rsvd);
  ("HugePages_Surp", HugePages_Surp); ("Hugepagesize", Hugepagesize);
  ("DirectMap4k", DirectMap4k); ("DirectMap2M", DirectMap2M);
  ("DirectMap1G", DirectMap1G)].

(** *** The parts of a line *)

(** The line feed. *)
Definition lf : ascii := "010"%char.

(** [strings.Split(s, sep)] for a separator of one byte. *)
Fixpoint splitOn (sep : ascii) (s : string) : list string :=
  match s with
  | EmptyString => [EmptyString]
  | String c rest =>
      if Ascii.eqb c sep then EmptyString :: splitOn sep rest
      else match splitOn sep rest with
           | piece :: pieces => String c piece :: pieces
           | [] => [String c EmptyString]
           end
  end.

(** The ASCII white space. *)
Definition isSpace (c : ascii) : bool :=
  existsb (Ascii.eqb c) [" "; "009"; "010"; "011"; "012"; "013"]%char.

Fixpoint trimLeft (s : string) : string :=
  match s with
  | EmptyString => EmptyString
  | String c rest => if isSpace c then trimLeft rest else s
  end.

Fixpoint trimRight (s : string) : string :=
  match s with
  | EmptyString => EmptyString
  | String c rest =>
      match trimRight rest with
      | EmptyString => if isSpace c then EmptyString else String c EmptyString
      | kept => String c kept
      end
  end.

(** [strings.TrimSpace] *)
Definition TrimSpace (s : string) : string := trimRight (trimLeft s).

(** [strings.Replace(s, " kB", "", -1)]; [skip] bytes of a match are still
    to be dropped. *)
Fixpoint removeUnit (skip : nat) (s : string) : string :=
  match s with
  | EmptyString => EmptyString
  | String c rest =>
      match skip with
      | S k => removeUnit k rest
      | O => if String.prefix " kB" s then removeUnit 2 rest
             else String c (removeUnit 0 rest)
      end
  end.

(** [strconv.ParseUint(s, 10, 64)] *)
Definition ParseUint (s : string) : option N :=
  match NilZero.uint_of_string s with
  | Some d => if (N.of_uint d <? 2 ^ 64)%N then Some (N.of_uint d) else None
  | None => None
  end.

(** The [switch] over the key. *)
Definition keyField (key : string) : option Field :=
  match find (fun kf => String.eqb key (fst kf)) fieldKeys with
  | Some kf => Some (snd kf)
  | None => None
  end.

(** One turn of the loop over the lines. *)
Definition parseLine (info : MemInfo) (line : string) : MemInfo :=
  match splitOn ":" line with
  | [k; v] =>
      match ParseUint (removeUnit 0 (TrimSpace v)) with
      | Some t =>
          match keyField (TrimSpace k) with
          | Some f => setField f t info
          | None => info
          end
      | None => info
      end
  | _ => info
  end.

Inductive readError := ErrReadFile.

(** Modelled from the spec: [readMemInfo] of the host utilities, which is
    not among the sources (only its test [Test_readMemInfo] is). The spec
    gives a line-oriented [key: value unit] text format, a fixed-field
    record, and a failure when the file is absent; the test gives the
    fields and their keys, that a key of no field is passed over, and that
    a line whose value is not a number leaves its field at zero without an
    error. A line is split at its colon, both sides are trimmed, the unit
    is dropped from the value and the rest is read as a decimal [uint64].
    [file] is what reading the path gives: [None] when it cannot be
    read. *)
Definition readMemInfo (file : option string) : MemInfo + readError :=
  match file with
  | None => inr ErrReadFile
  | Some data => inl (fold_left parseLine (splitOn lf data) emptyInfo)
  end.

(** Lines, each closed by a line feed. *)
Definition unlines (lines : list string) : string :=
  fold_right (fun l acc => l +:+ String lf acc) EmptyString lines.

(** *** The files and records of [Test_readMemInfo] *)

Definition memInfoLines : list string :=
  [ "MemTotal:       263432804 kB";
    "MemFree:        254391744 kB";
    "MemAvailable:   256703236 kB";
    "Buffers:          958096 kB";
    "Cached:          3763224 kB";
    "SwapCached:            0 kB";
    "Active:          2786012 kB";
    "Inactive:        2223752 kB";
    "Active(anon):     289488 kB";
    "Inactive(anon):     1300 kB";
    "Active(file):    2496524 kB";
    "Inactive(file):  2222452 kB";
    "Unevictable:           0 kB";
    "Mlocked:               0 kB";
    "SwapTotal:             0 kB";
    "SwapFree:              0 kB";
    "Dirty:               624 kB";
    "Writeback:             0 kB";
    "AnonPages:        281748 kB";
    "Mapped:           495936 kB";
    "Shmem:              2340 kB";
    "Slab:            1097040 kB";
    "SReclaimable:     445164 kB";
    "SUnreclaim:       651876 kB";
    "KernelStack:       20944 kB";
    "PageTables:         7896 kB";
    "NFS_Unstable:          0 kB";
    "Bounce:                0 kB";
    "WritebackTmp:          0 kB";
    "CommitLimit:    131716400 kB";
    "Committed_AS:    3825364 kB";
    "VmallocTotal:   34359738367 kB";
    "VmallocUsed:           0 kB";
    "VmallocChunk:          0 kB";
    "HardwareCorrupted:     0 kB";
    "AnonHugePages:     38912 kB";
    "ShmemHugePages:        0 kB";
    "ShmemPmdMapped:        0 kB";
    "CmaTotal:              0 kB";
    "CmaFree:               0 kB";
    "HugePages_Total:       0";
    "HugePages_Free:        0";
    "HugePages_Rsvd:        0";
    "HugePages_Surp:        0";
    "Hugepagesize:       2048 kB";
    "DirectMap4k:      414760 kB";
    "DirectMap2M:     8876032 kB";
    "DirectMap1G:    261095424 kB" ].

Definition memInfoLines1 : list string :=
  [ "MemTotal:       263432804 kB";
    "MemFree:        254391744 kB";
    "MemAvailable:   256703236 kB";
    "Buffers:          958096 kB";
    "Cached:          invalidField kB";
    "SwapCached:            0 kB";
    "Active:          2786012 kB";
    "Inactive:        2223752 kB";
    "Active(anon):     289488 kB";
    "Inactive(anon):     1300 kB";
    "Active(file):    2496524 kB";
    "Inactive(file):  2222452 kB";
    "Unevictable:           0 kB";
    "Mlocked:               0 kB";
    "SwapTotal:             0 kB";
    "SwapFree:              0 kB";
    "Dirty:               624 kB";
    "Writeback:             0 kB";
    "AnonPages:        281748 kB";
    "Mapped:           495936 kB";
    "Shmem:              2340 kB";
    "Slab:            1097040 kB";
    "SReclaimable:     445164 kB";
    "SUnreclaim:       651876 kB";
    "KernelStack:       20944 kB";
    "PageTables:         7896 kB";
    "NFS_Unstable:          0 kB";
    "Bounce:                0 kB";
    "WritebackTmp:          0 kB";
    "CommitLimit:    131716400 kB";
    "Committed_AS:    3825364 kB";
    "VmallocTotal:   34359738367 kB";
    "VmallocUsed:           0 kB";
    "VmallocChunk:          0 kB";
    "HardwareCorrupted:     0 kB";
    "AnonHugePages:     38912 kB";
    "ShmemHugePages:        0 kB";
    "ShmemPmdMapped:        0 kB";
    "CmaTotal:              0 kB";
    "CmaFree:               0 kB";
    "HugePages_Total:       0";
    "HugePages_Free:        0";
    "HugePages_Rsvd:        0";
    "HugePages_Surp:        0";
    "Hugepagesize:       2048 kB";
    "DirectMap4k:      414760 kB";
    "DirectMap2M:     8876032 kB";
    "DirectMap1G:    261095424 kB" ].

Definition wantMemInfo : MemInfo := fun f =>
  match f with
  | MemTotal => 263432804 | MemFree => 254391744
  | MemAvailable => 256703236 | Buffers => 958096 | Cached => 3763224
  | SwapCached => 0 | Active => 2786012 | Inactive => 2223752
  | ActiveAnon => 289488 | InactiveAnon => 1300 | ActiveFile => 2496524
  | InactiveFile => 2222452 | Unevictable => 0 | Mlocked => 0
  | SwapTotal => 0 | SwapFree => 0 | Dirty => 624 | Writeback => 0
  | AnonPages => 281748 | Mapped => 495936 | Shmem => 2340
  | Slab => 1097040 | SReclaimable => 445164 | SUnreclaim => 651876
  | KernelStack => 20944 | PageTables => 7896 | NFS_Unstable => 0
  | Bounce => 0 | WritebackTmp => 0 | CommitLimit => 131716400
  | Committed_AS => 3825364 | VmallocTotal => 34359738367
  | VmallocUsed => 0 | VmallocChunk => 0 | HardwareCorrupted => 0
  | AnonHugePages => 38912 | HugePages_Total => 0 | HugePages_Free => 0
  | HugePages_Rsvd => 0 | HugePages_Surp => 0 | Hugepagesize => 2048
  | DirectMap4k => 414760 | DirectMap2M => 8876032
  | DirectMap1G => 261095424
  end%N.

Definition wantMemInfo1 : MemInfo := fun f =>
  match f with
  | MemTotal => 263432804 | MemFree => 254391744
  | MemAvailable => 256703236 | Buffers => 958096 | Cached => 0
  | SwapCached => 0 | Active => 2786012 | Inactive => 2223752
  | ActiveAnon => 289488 | InactiveAnon => 1300 | ActiveFile => 2496524
  | InactiveFile => 2222452 | Unevictable => 0 | Mlocked => 0
  | SwapTotal => 0 | SwapFree => 0 | Dirty => 624 | Writeback => 0
  | AnonPages => 281748 | Mapped => 495936 | Shmem => 2340
  | Slab => 1097040 | SReclaimable => 445164 | SUnreclaim => 651876
  | KernelStack => 20944 | PageTables => 7896 | NFS_Unstable => 0
  | Bounce => 0 | WritebackTmp => 0 | CommitLimit => 131716400
  | Committed_AS => 3825364 | VmallocTotal => 34359738367
  | VmallocUsed => 0 | VmallocChunk => 0 | HardwareCorrupted => 0
  | AnonHugePages => 38912 | HugePages_Total => 0 | HugePages_Free => 0
  | HugePages_Rsvd => 0 | HugePages_Surp => 0 | Hugepagesize => 2048
  | DirectMap4k => 414760 | DirectMap2M => 8876032
  | DirectMap1G => 261095424
  end%N.


(** *** Well-formed files *)

(** A line of a file: a key with a decimal value after some spaces and
    maybe the unit, or a key with a text that is no number. *)
Inductive entry :=
| Number (key : string) (pad : nat) (v : N) (unit : bool)
| NotANumber (key : string) (text : string).

Definition entryKey (e : entry) : string :=
  match e with
  | Number key _ _ _ => key
  | NotANumber key _ => key
  end.

(** The value read for an entry's field. *)
Definition entryValue (e : entry) : N :=
  match e with
  | Number _ _ v _ => v
  | NotANumber _ _ => 0%N
  end.

Fixpoint allChars (P : ascii -> bool) (s : string) : bool :=
  match s with
  | EmptyString => true
  | String c rest => P c && allChars P rest
  end.

Definition notChar (sep c : ascii) : bool := negb (Ascii.eqb c sep).

Definition keyChar (c : ascii) : bool := notChar ":" c && negb (isSpace c).

Definition textChar (c : ascii) : bool := notChar ":" c && notChar lf c.

Fixpoint spaces (n : nat) : string :=
  match n with
  | O => EmptyString
  | S k => String " " (spaces k)
  end.

Definition decimal (v : N) : string := NilZero.string_of_uint (N.to_uint v).

(** The decimal digits. *)
Definition isDigit (c : ascii) : bool :=
  existsb (Ascii.eqb c) ["0"; "1"; "2"; "3"; "4"; "5"; "6"; "7"; "8"; "9"]%char.

(** The value side of a number line. *)
Definition valueSide (pad : nat) (v : N) (unit : bool) : string :=
  spaces pad +:+ decimal v +:+ (if unit then " kB" else "").

Definition renderEntry (e : entry) : string :=
  match e with
  | Number key pad v unit =>
      key +:+ String ":" (valueSide pad v unit)
  | NotANumber key text => key +:+ String ":" text
  end.

Definition wellFormed (e : entry) : Prop :=
  match e with
  | Number key _ v _ => allChars keyChar key = true /\ (v < 2 ^ 64)%N
  | NotANumber key text =>
      allChars keyChar key = true /\ allChars textChar text = true
      /\ ParseUint (removeUnit 0 (TrimSpace text)) = None
  end.

(** What an entry does to the record. *)
Definition assignEntry (info : MemInfo) (e : entry) : MemInfo :=
  match e with
  | Number key _ v _ =>
      match keyField key with
      | Some f => setField f v info
      | None => info
      end
  | NotANumber _ _ => info
  end.

Definition recordOf (entries : list entry) : MemInfo :=
  fold_left assignEntry entries emptyInfo.

(** A short file: a line with the unit, a line that holds no number, and
    a line without the unit. *)
Definition threeLines : list entry :=
  [ Number "MemTotal" 7 263432804 true;
    NotANumber "Cached" "          invalidField kB";
    Number "HugePages_Total" 7 0 false ].

End Meminfo.

(** ** What the claims speak of *)
Module DeviceshareSpec.
Import Resource Corev1 Apiext Deviceshare.

(** The bit of each recognized GPU name. *)
Definition gpuBits : list (ResourceName * Z) :=
  [(ResourceNvidiaGPU, NvidiaGPUExist); (ResourceGPU, KoordGPUExist);
   (ResourceGPUCore, GPUCoreExist); (ResourceGPUMemory, GPUMemoryExist);
   (ResourceGPUMemoryRatio, GPUMemoryRatioExist)].

(** The mask with one bit per GPU name present in the request. *)
Definition presenceMask (podRequest : ResourceList) : Z :=
  fold_right
    (fun nb acc => if rl_has podRequest (fst nb) then Z.lor (snd nb) acc else acc)
    0 gpuBits.

(** The four whitelisted combinations. *)
Definition validCombination (mask : Z) : Prop :=
  mask = NvidiaGPUExist \/ mask = KoordGPUExist
  \/ mask = Z.lor GPUCoreExist GPUMemoryExist
  \/ mask = Z.lor GPUCoreExist GPUMemoryRatioExist.

(** The GPU names whose value is a ratio. *)
Definition gpuRatioNames : list ResourceName :=
  [ResourceGPU; ResourceGPUCore; ResourceGPUMemoryRatio].

(** A value that is at most 100 or an exact multiple of 100. *)
Definition ratioOK (v : Z) : Prop := v <= 100 \/ Z.rem v 100 = 0.

(** Every ratio-typed GPU name of the request has such a value. *)
Definition gpuQuantitiesOK (podRequest : ResourceList) : Prop :=
  forall name q, In name gpuRatioNames ->
    rl_get podRequest name = Some q -> ratioOK (Value q).

(** The name of the single resource of a common device. *)
Definition commonDeviceName (t : DeviceType) : ResourceName :=
  match t with
  | RDMA => ResourceRDMA
  | FPGA => ResourceFPGA
  | GPU => ResourceGPU
  end.

Definition isInvalidQuantity (e : option error) : Prop :=
  exists name v, e = Some (ErrInvalidQuantity name v).

Definition quantity (v : Z) : Quantity := NewQuantity v DecimalSI.

(** A map of a container's requests holds some GPU name. *)
Definition requestsGPU (reqs : gmap string Quantity) : Prop :=
  exists name, In name (DeviceResourceNames GPU) /\ is_Some (reqs !! name).

(** The container at index [i], with its map at [l], is the first of the
    list whose map holds a GPU name. *)
Definition firstGPUContainer (σ : store) (containers : list Container)
    (i : nat) (c : Container) (l : loc) : Prop :=
  containers !! i = Some c /\ Requests c = Some l
  /\ requestsGPU (deref σ l)
  /\ forall j c' l', (j < i)%nat -> containers !! j = Some c' ->
                     Requests c' = Some l' -> ~ requestsGPU (deref σ l').

(** No container of the list has a map that holds a GPU name. *)
Definition noGPUContainer (σ : store) (containers : list Container) : Prop :=
  forall c l, In c containers -> Requests c = Some l -> ~ requestsGPU (deref σ l).

(** The three names [patchContainerGPUResource] writes. *)
Definition patchedNames : list ResourceName :=
  [ResourceGPUCore; ResourceGPUMemory; ResourceGPUMemoryRatio].

(** *** Sample requests *)

(** The normalized whole-device name alone, with the value 150. *)
Definition koordGPU150 : ResourceList := Some {[ ResourceGPU := quantity 150 ]}.

(** Half a device through the normalized whole-device name. *)
Definition koordGPU50 : ResourceList := Some {[ ResourceGPU := quantity 50 ]}.

(** More native devices than a hundredth of the largest [int64]. *)
Definition nvidiaHuge : ResourceList :=
  Some {[ ResourceNvidiaGPU := quantity 92233720368547759 ]}.

Definition nvidiaTwo : ResourceList := Some {[ ResourceNvidiaGPU := quantity 2 ]}.

Definition coreAndMemory : ResourceList :=
  Some {[ ResourceGPUCore := quantity 50; ResourceGPUMemory := quantity 1024 ]}.

Definition core250 : ResourceList :=
  Some {[ ResourceGPUCore := quantity 250; ResourceGPUMemoryRatio := quantity 100 ]}.

(** *** Sample pods and stores *)

(** Two containers that own a map each, and one without requests; the
    second map is the first to hold a GPU name. *)
Definition threeContainers : Pod :=
  {| Containers := [ {| ContainerName := "init"; Requests := None |};
                     {| ContainerName := "sidecar"; Requests := Some 1%positive |};
                     {| ContainerName := "main"; Requests := Some 2%positive |} ] |}.

Definition threeContainersStore : store :=
  {[ 1%positive := {[ "cpu" := quantity 1 ]};
     2%positive := {[ ResourceNvidiaGPU := quantity 1; "cpu" := quantity 4 ]} ]}.

Definition canonicalRequest : ResourceList :=
  Some {[ ResourceGPUCore := quantity 100;
          ResourceGPUMemory := NewQuantity 4096 BinarySI;
          ResourceGPUMemoryRatio := quantity 100 ]}.

(** One device of 4096 bytes at minor 3. *)
Definition oneDevice : deviceResources :=
  {[ 3 := {[ ResourceGPUMemory := NewQuantity 4096 BinarySI ]} ]}.

End DeviceshareSpec.

(** ** pkg/scheduler/plugins/deviceshare/utils.go : the other helpers *)
Module DeviceshareHelpers.
Import Resource Corev1 Apiext Deviceshare.

Definition hasDeviceResource (podRequest : ResourceList) (deviceType : DeviceType)
  : bool :=
  if rl_empty podRequest then false
  else existsb (rl_has podRequest) (DeviceResourceNames deviceType).

Definition convertCommonDeviceResource (podRequest : ResourceList)
    (deviceType : DeviceType) : ResourceList :=
  if rl_empty podRequest then None
  else
    match deviceType with
    | RDMA =>
        match rl_get podRequest ResourceRDMA with
        | Some value => Some {[ ResourceRDMA := value ]}
        | None => None
        end
    | FPGA =>
        match rl_get podRequest ResourceFPGA with
        | Some value => Some {[ ResourceFPGA := value ]}
        | None => None
        end
    | _ => None
    end.

(** [v > 100 && v%100 == 0] *)
Definition wholeMultiple (v : Z) : bool :=
  (100 <? v) && (Go.int64_rem v 100 =? 0).

Definition isMultipleCommonDevicePod (podRequest : ResourceList)
    (deviceType : DeviceType) : bool :=
  if rl_empty podRequest then false
  else
    match deviceType with
    | RDMA => wholeMultiple (Value (rl_index podRequest ResourceRDMA))
    | FPGA => wholeMultiple (Value (rl_index podRequest ResourceFPGA))
    | _ => false
    end.

Definition isMultipleGPUPod (podRequest : ResourceList) : bool :=
  if rl_empty podRequest then false
  else wholeMultiple (Value (rl_index podRequest ResourceGPUCore)).

End DeviceshareHelpers.

Module ConvertSpec.
Import Resource Corev1 Apiext Deviceshare DeviceshareSpec.

(** The mask of the request [ConvertGPUResource] makes of a request of
    mask [mask]: memory stays in bytes when it was given in bytes. *)
Definition canonicalMask (mask : Z) : Z :=
  if mask =? Z.lor GPUCoreExist GPUMemoryExist
  then Z.lor GPUCoreExist GPUMemoryExist
  else Z.lor GPUCoreExist GPUMemoryRatioExist.

(** Two devices through the normalized name, with a resource of no device. *)
Definition koordGPU200 : ResourceList :=
  Some {[ ResourceGPU := quantity 200; "cpu" := quantity 4 ]}.

(** Half a device with a quarter of its memory. *)
Definition coreAndRatio : ResourceList :=
  Some {[ ResourceGPUCore := quantity 50; ResourceGPUMemoryRatio := quantity 25 ]}.

End ConvertSpec.

Module HelperSpec.
Import Resource Corev1 Apiext Deviceshare DeviceshareSpec.

(** Three RDMA devices beside a resource of no device. *)
Definition rdma300 : ResourceList :=
  Some {[ ResourceRDMA := quantity 300; "cpu" := quantity 2 ]}.

(** Three quarters of a device's memory. *)
Definition ratio75 : Quantity := quantity 75.

(** Two whole devices by core-share and memory-ratio. *)
Definition core200 : ResourceList :=
  Some {[ ResourceGPUCore := quantity 200; ResourceGPUMemoryRatio := quantity 200 ]}.

Definition memory4096 : Quantity := NewQuantity 4096 BinarySI.

End HelperSpec.

(** ** pkg/util/reservation/reservation.go : status tests and event handler *)
Module ReservationEvents.
Import Reservation.

(** Modelled from the spec: two more phase constants of
    [apis/scheduling/v1alpha1], which is not among the sources. *)
Definition ReservationAvailable : string := "Available".
Definition ReservationWaiting : string := "Waiting".

Definition IsReservationActive (r : option Reservation) : bool :=
  match r with
  | None => false
  | Some r' =>
      (0 <? len (GetReservationNodeName r'))
      && (String.eqb (RPhase r') ReservationAvailable
          || String.eqb (RPhase r') ReservationWaiting)
  end.

Definition IsReservationAvailable (r : option Reservation) : bool :=
  match r with
  | None => false
  | Some r' =>
      (0 <? len (GetReservationNodeName r'))
      && String.eqb (RPhase r') ReservationAvailable
  end.

(** What an informer hands to a handler as [interface{}]: a
    [*Reservation], which may be the [nil] pointer, the tombstone
    [cache.DeletedFinalStateUnknown] around another object, or a value of
    any other type. *)
Inductive object :=
| ObjReservation (r : option Reservation)
| ObjDeletedFinalStateUnknown (obj : object)
| ObjOther.

(** The calls made on the wrapped pod handler, which is taken non-nil. *)
Inductive podEvent :=
| PodAdd (pod : Pod)
| PodUpdate (oldPod newPod : Pod)
| PodDelete (pod : Pod).

(** The type assertion of [obj] to a reservation pointer, with its [ok]. *)
Definition asReservation (obj : object) : option (option Reservation) :=
  match obj with
  | ObjReservation r => Some r
  | _ => None
  end.

Section Handler.
Variable SchedulingDomainPrefix : string.

(** [NewReservePod] behind a pointer: its first statement reads
    [r.Spec]. *)
Definition newReservePod (r : option Reservation) : Go.result Pod :=
  match r with
  | None => Go.Panic Go.NilDereference
  | Some r' => Go.Ok (NewReservePod SchedulingDomainPrefix r')
  end.

Definition OnAdd (obj : object) : Go.result (list podEvent) :=
  match asReservation obj with
  | None => Go.Ok []
  | Some reservation =>
      pod ← newReservePod reservation;
      Go.Ok [PodAdd pod]
  end.

Definition OnUpdate (oldObj newObj : object) : Go.result (list podEvent) :=
  match asReservation oldObj, asReservation newObj with
  | Some oldR, Some newR =>
      oldPod ← newReservePod oldR;
      newPod ← newReservePod newR;
      Go.Ok [PodUpdate oldPod newPod]
  | _, _ => Go.Ok []
  end.

Definition OnDelete (obj : object) : Go.result (list podEvent) :=
  match
    match obj with
    | ObjReservation t => Some t
    | ObjDeletedFinalStateUnknown t => asReservation t
    | ObjOther => None
    end
  with
  | None => Go.Ok []
  | Some reservation =>
      pod ← newReservePod reservation;
      Go.Ok [PodDelete pod]
  end.
End Handler.

(** The pods an event carries. *)
Definition eventPods (e : podEvent) : list Pod :=
  match e with
  | PodAdd pod => [pod]
  | PodUpdate oldPod newPod => [oldPod; newPod]
  | PodDelete pod => [pod]
  end.

(** *** Sample reservations *)

(** Scheduled on a node, with labels and a namespace in the template. *)
Definition scheduledReservation : Reservation :=
  {| RMeta := {| Name := "gpu-hold"; Namespace := ""; UID := "7f3a";
                 Labels := Some {[ "tier" := "gold" ]};
                 Annotations := None |};
     Template := Some {| TemplateMeta :=
                           {| Name := "tpl"; Namespace := "batch"; UID := "";
                              Labels := Some {[ "tier" := "silver"; "app" := "train" ]};
                              Annotations := None |};
                         TemplateSpec := {| NodeName := "node-1";
                                            SchedulerName := "koord-scheduler" |} |};
     RPhase := ReservationAvailable;
     RNodeName := "node-2";
     Conditions := [] |}.

End ReservationEvents.

(** ** Validation *)
Module ValidateFacts.
Import Resource Corev1 Apiext Deviceshare DeviceshareSpec.

Lemma badRatio_true v : badRatio v = true <-> 100 < v /\ Z.rem v 100 <> 0.
Proof.
  unfold badRatio, Go.int64_rem.
  rewrite andb_true_iff, negb_true_iff, Z.ltb_lt, Z.eqb_neq. tauto.
Qed.

Lemma badRatio_false v : badRatio v = false <-> ratioOK v.
Proof.
  unfold ratioOK. destruct (badRatio v) eqn:E.
  - apply badRatio_true in E. split; [discriminate | lia].
  - split; [intros _ | reflexivity].
    destruct (Z_le_gt_dec v 100); [now left | right].
    destruct (Z.eq_dec (Z.rem v 100) 0) as [|Hn]; [assumption | exfalso].
    assert (badRatio v = true) by (apply badRatio_true; lia). congruence.
Qed.

Lemma rl_get_nonempty rl name q : rl_get rl name = Some q -> rl_empty rl = false.
Proof.
  destruct rl as [m|]; simpl; [|discriminate]. intros H.
  apply Z.eqb_neq. intros Hs.
  assert (size m = 0%nat) as Hz by lia.
  apply map_size_empty_iff in Hz. subst m. rewrite lookup_empty in H. discriminate.
Qed.

Lemma validCombination_dec mask : {validCombination mask} + {~ validCombination mask}.
Proof.
  unfold validCombination.
  destruct (Z.eq_dec mask NvidiaGPUExist); [left; tauto|].
  destruct (Z.eq_dec mask KoordGPUExist); [left; tauto|].
  destruct (Z.eq_dec mask (Z.lor GPUCoreExist GPUMemoryExist)); [left; tauto|].
  destruct (Z.eq_dec mask (Z.lor GPUCoreExist GPUMemoryRatioExist)); [left; tauto|].
  right; tauto.
Defined.

(** With the value checks passed, the result is decided by the mask. *)
Lemma validate_gpu_mask podRequest :
  rl_empty podRequest = false -> gpuQuantitiesOK podRequest ->
  ValidateGPURequest podRequest =
    (presenceMask podRequest,
     if validCombination_dec (presenceMask podRequest) then None
     else Some (ErrInvalidCombination
                  (maskedResourceNames podRequest (DeviceResourceNames GPU)))).
Proof.
  intros Hne Hok.
  assert (forall name q, In name gpuRatioNames -> rl_get podRequest name = Some q ->
                         badRatio (Value q) = false) as Hb.
  { intros. apply badRatio_false. eauto. }
  pose proof (Hb ResourceGPU) as H2.
  pose proof (Hb ResourceGPUCore) as H3.
  pose proof (Hb ResourceGPUMemoryRatio) as H5.
  clear Hb Hok.
  unfold presenceMask, gpuBits, rl_has; cbn [fold_right fst snd].
  unfold ValidateGPURequest. rewrite Hne.
  destruct (rl_get podRequest ResourceNvidiaGPU) as [q1|];
  destruct (rl_get podRequest ResourceGPU) as [q2|];
  destruct (rl_get podRequest ResourceGPUCore) as [q3|];
  destruct (rl_get podRequest ResourceGPUMemory) as [q4|];
  destruct (rl_get podRequest ResourceGPUMemoryRatio) as [q5|];
  cbn [run mbind early_bind];
  try rewrite (H2 _ ltac:(simpl; tauto) eq_refl);
  try rewrite (H3 _ ltac:(simpl; tauto) eq_refl);
  try rewrite (H5 _ ltac:(simpl; tauto) eq_refl);
  cbn [run mbind early_bind]; reflexivity.
Qed.

Lemma validate_gpu_quantity_error podRequest name q :
  In name gpuRatioNames -> rl_get podRequest name = Some q ->
  badRatio (Value q) = true ->
  isInvalidQuantity (snd (ValidateGPURequest podRequest)).
Proof.
  intros Hin Hget Hbad.
  pose proof (rl_get_nonempty _ _ _ Hget) as Hne.
  unfold ValidateGPURequest, isInvalidQuantity. rewrite Hne.
  destruct Hin as [<-|[<-|[<-|[]]]]; rewrite ?Hget;
    destruct (rl_get podRequest ResourceNvidiaGPU) as [q1|];
    destruct (rl_get podRequest ResourceGPU) as [q2|];
    destruct (rl_get podRequest ResourceGPUCore) as [q3|];
    destruct (rl_get podRequest ResourceGPUMemory) as [q4|];
    destruct (rl_get podRequest ResourceGPUMemoryRatio) as [q5|];
    cbn [run mbind early_bind];
    try discriminate;
    repeat match goal with
           | H : Some _ = Some _ |- _ => injection H as ->
           end;
    rewrite ?Hbad; cbn [run mbind early_bind snd];
    repeat match goal with
           | |- context [badRatio (Value ?x)] =>
               destruct (badRatio (Value x)) eqn:?; cbn [run mbind early_bind snd]
           end;
    try congruence; eauto.
Qed.

Lemma validate_gpu_no_quantity_error podRequest :
  gpuQuantitiesOK podRequest ->
  ~ isInvalidQuantity (snd (ValidateGPURequest podRequest)).
Proof.
  intros Hok [name [v He]].
  destruct (rl_empty podRequest) eqn:Hne.
  - unfold ValidateGPURequest in He. rewrite Hne in He. discriminate.
  - rewrite (validate_gpu_mask _ Hne Hok) in He. cbn [snd] in He.
    destruct (validCombination_dec _); discriminate.
Qed.

Lemma validate_common_quantity_error podRequest t q :
  t = RDMA \/ t = FPGA ->
  rl_get podRequest (commonDeviceName t) = Some q ->
  badRatio (Value q) = true ->
  validateCommonDeviceRequest podRequest t
  = Some (ErrInvalidQuantity (commonDeviceName t) (Value q)).
Proof.
  intros Ht Hget Hbad.
  pose proof (rl_get_nonempty _ _ _ Hget) as Hne.
  unfold validateCommonDeviceRequest. rewrite Hne.
  destruct Ht as [-> | ->]; cbn [commonDeviceName] in *;
    unfold rl_index; rewrite Hget, Hbad; reflexivity.
Qed.

Lemma validate_common_pass podRequest t :
  t = RDMA \/ t = FPGA -> rl_empty podRequest = false ->
  ratioOK (Value (rl_index podRequest (commonDeviceName t))) ->
  validateCommonDeviceRequest podRequest t = None.
Proof.
  intros Ht Hne Hok. apply badRatio_false in Hok.
  unfold validateCommonDeviceRequest. rewrite Hne.
  destruct Ht as [-> | ->]; cbn [commonDeviceName] in *; rewrite Hok; reflexivity.
Qed.

End ValidateFacts.

Module ValidateClaims.
Import Resource Corev1 Apiext Deviceshare DeviceshareSpec ValidateFacts.

(** C1, as stated, fails: the request [koordGPU150] is not empty and its
    presence mask is the whitelisted [KoordGPUExist], yet
    [ValidateGPURequest] returns the mask 0 and an invalid-quantity
    error, because the value check comes first. *)
Lemma validate_gpu_whitelist_counterexample :
  rl_empty koordGPU150 = false
  /\ validCombination (presenceMask koordGPU150)
  /\ ValidateGPURequest koordGPU150
     = (0, Some (ErrInvalidQuantity ResourceGPU 150)).
Proof.
  split; [reflexivity | split; [right; left; reflexivity | reflexivity]].
Qed.

(** C1, amended: for every non-empty request whose ratio-typed GPU values
    are each at most 100 or a multiple of 100, [ValidateGPURequest]
    returns the mask with one bit per GPU name present; it returns that
    mask without an error exactly when the mask is one of the four
    whitelisted combinations, and with an invalid-combination error for
    every other mask. *)
Theorem validate_gpu_whitelist podRequest :
  rl_empty podRequest = false ->
  gpuQuantitiesOK podRequest ->
  fst (ValidateGPURequest podRequest) = presenceMask podRequest
  /\ (ValidateGPURequest podRequest = (presenceMask podRequest, None)
      <-> validCombination (presenceMask podRequest))
  /\ (~ validCombination (presenceMask podRequest) ->
      ValidateGPURequest podRequest
      = (presenceMask podRequest,
         Some (ErrInvalidCombination
                 (maskedResourceNames podRequest (DeviceResourceNames GPU))))).
Proof.
  intros Hne Hok. rewrite (validate_gpu_mask _ Hne Hok).
  destruct (validCombination_dec (presenceMask podRequest)) as [Hv | Hv].
  - split; [reflexivity | split; [tauto | contradiction]].
  - split; [reflexivity | split; [| reflexivity]].
    split; [discriminate | contradiction].
Qed.

Lemma coreAndMemory_quantities : gpuQuantitiesOK coreAndMemory.
Proof.
  intros name q [<-|[<-|[<-|[]]]] H; vm_compute in H;
    try discriminate; injection H as <-; left; vm_compute; discriminate.
Defined.

Lemma validate_gpu_whitelist_witness :
  ValidateGPURequest coreAndMemory = (presenceMask coreAndMemory, None)
  <-> validCombination (presenceMask coreAndMemory).
Proof.
  apply (validate_gpu_whitelist coreAndMemory);
    [reflexivity | exact coreAndMemory_quantities].
Defined.

(** C2: a ratio-typed value above 100 that is not a multiple of 100 makes
    validation fail with an invalid-quantity error, for the three
    ratio-typed GPU names in [ValidateGPURequest] and for the RDMA and
    FPGA names in [validateCommonDeviceRequest]; values that are at most
    100 or a multiple of 100 pass the value check: no invalid-quantity
    error for GPU, no error at all for RDMA and FPGA. *)
Theorem ratio_quantity_check podRequest :
  (forall name q, In name gpuRatioNames ->
     rl_get podRequest name = Some q ->
     100 < Value q -> Z.rem (Value q) 100 <> 0 ->
     isInvalidQuantity (snd (ValidateGPURequest podRequest)))
  /\ (forall t q, t = RDMA \/ t = FPGA ->
        rl_get podRequest (commonDeviceName t) = Some q ->
        100 < Value q -> Z.rem (Value q) 100 <> 0 ->
        validateCommonDeviceRequest podRequest t
        = Some (ErrInvalidQuantity (commonDeviceName t) (Value q)))
  /\ (gpuQuantitiesOK podRequest ->
      ~ isInvalidQuantity (snd (ValidateGPURequest podRequest)))
  /\ (forall t, t = RDMA \/ t = FPGA ->
        rl_empty podRequest = false ->
        ratioOK (Value (rl_index podRequest (commonDeviceName t))) ->
        validateCommonDeviceRequest podRequest t = None).
Proof.
  repeat split.
  - intros name q Hin Hget H1 H2.
    apply (validate_gpu_quantity_error podRequest name q Hin Hget).
    apply badRatio_true. tauto.
  - intros t q Ht Hget H1 H2.
    apply (validate_common_quantity_error podRequest t q Ht Hget).
    apply badRatio_true. tauto.
  - apply validate_gpu_no_quantity_error.
  - intros t. apply validate_common_pass.
Qed.

Lemma ratio_quantity_check_witness :
  isInvalidQuantity (snd (ValidateGPURequest core250)).
Proof.
  apply (proj1 (ratio_quantity_check core250) ResourceGPUCore (quantity 250)).
  - simpl; tauto.
  - reflexivity.
  - vm_compute; reflexivity.
  - vm_compute; discriminate.
Defined.

End ValidateClaims.


(** ** Conversion *)
Module ConvertFacts.
Import Resource Corev1 Apiext Deviceshare DeviceshareSpec ValidateFacts.

Lemma wrap64_id z : Go.in_int64 z -> Go.wrap64 z = z.
Proof.
  unfold Go.in_int64, Go.int64_min, Go.int64_max, Go.wrap64. intros H.
  rewrite Z.mod_small; lia.
Qed.

(** A request that validates is not empty, and the mask returned is its
    presence mask, one of the whitelist. *)
Lemma validate_ok podRequest mask :
  ValidateGPURequest podRequest = (mask, None) ->
  rl_empty podRequest = false
  /\ mask = presenceMask podRequest
  /\ validCombination mask.
Proof.
  unfold presenceMask, gpuBits, rl_has; cbn [fold_right fst snd].
  unfold ValidateGPURequest.
  destruct (rl_empty podRequest); [discriminate|].
  destruct (rl_get podRequest ResourceNvidiaGPU) as [q1|];
    destruct (rl_get podRequest ResourceGPU) as [q2|];
    destruct (rl_get podRequest ResourceGPUCore) as [q3|];
    destruct (rl_get podRequest ResourceGPUMemory) as [q4|];
    destruct (rl_get podRequest ResourceGPUMemoryRatio) as [q5|];
    cbn [run mbind early_bind];
    repeat match goal with
           | |- context [badRatio (Value ?x)] =>
               destruct (badRatio (Value x)); cbn [run mbind early_bind]
           end;
    intros H; try discriminate H; injection H as <-;
    (split; [reflexivity | split; [reflexivity |]]);
    unfold validCombination; vm_compute; tauto.
Qed.

Lemma presence_core_memory podRequest :
  presenceMask podRequest = Z.lor GPUCoreExist GPUMemoryExist ->
  is_Some (rl_get podRequest ResourceGPUCore)
  /\ is_Some (rl_get podRequest ResourceGPUMemory).
Proof.
  unfold presenceMask, gpuBits, rl_has; cbn [fold_right fst snd].
  destruct (rl_get podRequest ResourceNvidiaGPU) as [q1|];
    destruct (rl_get podRequest ResourceGPU) as [q2|];
    destruct (rl_get podRequest ResourceGPUCore) as [q3|];
    destruct (rl_get podRequest ResourceGPUMemory) as [q4|];
    destruct (rl_get podRequest ResourceGPUMemoryRatio) as [q5|];
    vm_compute; intros H; try discriminate H; eauto.
Qed.

End ConvertFacts.

Module ConvertClaims.
Import Resource Corev1 Apiext Deviceshare DeviceshareSpec ValidateFacts ConvertFacts.

(** C3, as stated, fails. The request [koordGPU50] validates with the
    normalized whole-device name alone, and [ConvertGPUResource] passes its
    value 50 through as the core-share: not 100 times 50. The request
    [nvidiaHuge] validates with the native name alone, and 100 times its
    count does not fit an [int64]: the core-share wraps to a negative
    value. *)
Lemma convert_whole_device_counterexample :
  (ValidateGPURequest koordGPU50 = (KoordGPUExist, None)
   /\ Value (rl_index (ConvertGPUResource koordGPU50 KoordGPUExist) ResourceGPUCore) = 50
   /\ 50 <> 100 * Value (rl_index koordGPU50 ResourceGPU))
  /\ (ValidateGPURequest nvidiaHuge = (NvidiaGPUExist, None)
      /\ Value (rl_index (ConvertGPUResource nvidiaHuge NvidiaGPUExist) ResourceGPUCore)
         = -9223372036854775716
      /\ -9223372036854775716 <> 100 * Value (rl_index nvidiaHuge ResourceNvidiaGPU)).
Proof.
  repeat split; try reflexivity; vm_compute; discriminate.
Qed.

(** C3, amended: for every validated request with the native whole-device
    name alone, [ConvertGPUResource] returns core-share and memory-ratio
    both equal to 100 times the requested device count, provided that
    product fits an [int64]; with the normalized whole-device name alone,
    whose value is already a percentage (100 for each whole device), it
    returns the requested quantity unchanged as both core-share and
    memory-ratio. *)
Theorem convert_whole_device podRequest mask :
  ValidateGPURequest podRequest = (mask, None) ->
  (mask = NvidiaGPUExist ->
   Go.in_int64 (100 * Value (rl_index podRequest ResourceNvidiaGPU)) ->
   ConvertGPUResource podRequest mask
   = Some {[ ResourceGPUCore :=
               NewQuantity (100 * Value (rl_index podRequest ResourceNvidiaGPU)) DecimalSI;
             ResourceGPUMemoryRatio :=
               NewQuantity (100 * Value (rl_index podRequest ResourceNvidiaGPU)) DecimalSI ]})
  /\ (mask = KoordGPUExist ->
      ConvertGPUResource podRequest mask
      = Some {[ ResourceGPUCore := rl_index podRequest ResourceGPU;
                ResourceGPUMemoryRatio := rl_index podRequest ResourceGPU ]}).
Proof.
  intros Hv. destruct (validate_ok _ _ Hv) as (Hne & _ & _).
  unfold ConvertGPUResource. rewrite Hne. split; intros ->.
  - intros Hr. cbn. unfold Go.int64_mul.
    rewrite (Z.mul_comm _ 100), (wrap64_id _ Hr). reflexivity.
  - reflexivity.
Qed.

Lemma convert_whole_device_witness :
  ConvertGPUResource nvidiaTwo NvidiaGPUExist
  = Some {[ ResourceGPUCore := NewQuantity 200 DecimalSI;
            ResourceGPUMemoryRatio := NewQuantity 200 DecimalSI ]}.
Proof.
  apply (proj1 (convert_whole_device nvidiaTwo NvidiaGPUExist eq_refl) eq_refl).
  vm_compute. split; discriminate.
Defined.

(** C4: for every validated request whose mask is core-share with memory
    bytes, [ConvertGPUResource] followed by [fillGPUTotalMem] yields a
    request whose core-share is the input core-share, unchanged, and whose
    memory-ratio is [memBytesToRatio] of the input memory bytes against the
    total memory of the node's active device instance. *)
Theorem convert_core_memory convIndefinite activeMinor nodeDeviceTotal podRequest :
  ValidateGPURequest podRequest = (Z.lor GPUCoreExist GPUMemoryExist, None) ->
  rangeFirst nodeDeviceTotal activeMinor ->
  exists canonical,
    fillGPUTotalMem convIndefinite activeMinor nodeDeviceTotal
      (ConvertGPUResource podRequest (Z.lor GPUCoreExist GPUMemoryExist))
    = Go.Ok canonical
    /\ is_Some (rl_get podRequest ResourceGPUCore)
    /\ rl_get canonical ResourceGPUCore = rl_get podRequest ResourceGPUCore
    /\ rl_get canonical ResourceGPUMemoryRatio
       = Some (memBytesToRatio convIndefinite
                 (rl_index podRequest ResourceGPUMemory)
                 (rl_index (nodeDeviceTotal !! activeMinor) ResourceGPUMemory)).
Proof.
  intros Hv _. destruct (validate_ok _ _ Hv) as (Hne & Hm & _).
  destruct (presence_core_memory _ (eq_sym Hm)) as [[qc Hc] [qm Hmem]].
  unfold ConvertGPUResource, fillGPUTotalMem. rewrite Hne. cbn.
  unfold rl_index. rewrite Hc, Hmem.
  eexists. split; [reflexivity|].
  split; [eauto|]. split; reflexivity.
Qed.

Lemma convert_core_memory_witness :
  exists canonical,
    fillGPUTotalMem Go.amd64_indefinite 3 oneDevice
      (ConvertGPUResource coreAndMemory (Z.lor GPUCoreExist GPUMemoryExist))
    = Go.Ok canonical
    /\ is_Some (rl_get coreAndMemory ResourceGPUCore)
    /\ rl_get canonical ResourceGPUCore = rl_get coreAndMemory ResourceGPUCore
    /\ rl_get canonical ResourceGPUMemoryRatio
       = Some (memBytesToRatio Go.amd64_indefinite
                 (rl_index coreAndMemory ResourceGPUMemory)
                 (rl_index (oneDevice !! 3) ResourceGPUMemory)).
Proof.
  apply (convert_core_memory Go.amd64_indefinite 3 oneDevice coreAndMemory).
  - reflexivity.
  - left. vm_compute. eauto.
Defined.

End ConvertClaims.


(** ** Patching *)
Module PatchFacts.
Import Resource Corev1 Apiext Deviceshare DeviceshareSpec.

Lemma needPatch_spec reqs : needPatch reqs = true <-> requestsGPU reqs.
Proof.
  unfold needPatch, requestsGPU. rewrite existsb_exists.
  split; intros [name [Hin H]]; exists name; split; try assumption.
  - now apply bool_decide_eq_true in H.
  - now apply bool_decide_eq_true.
Qed.

Lemma needPatch_false reqs : needPatch reqs = false <-> ~ requestsGPU reqs.
Proof.
  rewrite <- needPatch_spec. destruct (needPatch reqs); split; congruence.
Qed.

Lemma patchRequests_written podRequest reqs v :
  In v patchedNames -> patchRequests podRequest reqs !! v = Some (rl_index podRequest v).
Proof.
  unfold patchRequests, patchedNames. cbn [foldl].
  intros [<-|[<-|[<-|[]]]].
  - rewrite !lookup_insert_ne by discriminate. apply lookup_insert_eq.
  - rewrite lookup_insert_ne by discriminate. apply lookup_insert_eq.
  - apply lookup_insert_eq.
Qed.

Lemma patchRequests_kept podRequest reqs k :
  ~ In k patchedNames -> patchRequests podRequest reqs !! k = reqs !! k.
Proof.
  unfold patchRequests, patchedNames. cbn [foldl]. intros Hk.
  rewrite !lookup_insert_ne; [reflexivity | | |]; intros <-; apply Hk; simpl; tauto.
Qed.

Lemma deref_insert_eq (σ : store) l m : deref (<[l := m]> σ) l = m.
Proof. unfold deref. now rewrite lookup_insert_eq. Qed.

Lemma deref_insert_ne (σ : store) l l' m : l <> l' -> deref (<[l := m]> σ) l' = deref σ l'.
Proof. intros H. unfold deref. now rewrite lookup_insert_ne. Qed.

(** No container's map holds a GPU name: the store is left as it is. *)
Lemma patchContainers_none containers podRequest (σ : store) :
  noGPUContainer σ containers ->
  patchContainers containers podRequest σ = σ.
Proof.
  unfold noGPUContainer.
  induction containers as [|c rest IH]; intros H; cbn [patchContainers]; [reflexivity|].
  destruct (Requests c) as [l|] eqn:Hl.
  - assert (needPatch (deref σ l) = false) as ->
      by (apply needPatch_false, (H c l); [now left | assumption]).
    apply IH. intros c' l' Hin. apply H. now right.
  - apply IH. intros c' l' Hin. apply H. now right.
Qed.

(** The first container whose map holds a GPU name decides the write. *)
Lemma patchContainers_first containers podRequest (σ : store) i c l :
  firstGPUContainer σ containers i c l ->
  patchContainers containers podRequest σ
  = <[l := patchRequests podRequest (deref σ l)]> σ.
Proof.
  unfold firstGPUContainer.
  revert i. induction containers as [|c0 rest IH]; intros i (Hi & Hl & Hg & Hbefore).
  - destruct i; discriminate.
  - cbn [patchContainers]. destruct i as [|i].
    + injection Hi as ->. rewrite Hl.
      apply needPatch_spec in Hg. now rewrite Hg.
    + assert (forall l0, Requests c0 = Some l0 -> needPatch (deref σ l0) = false) as H0.
      { intros l0 H0. apply needPatch_false.
        apply (Hbefore 0%nat c0 l0); [lia | reflexivity | assumption]. }
      assert (patchContainers rest podRequest σ
              = <[l := patchRequests podRequest (deref σ l)]> σ) as Hrest.
      { apply (IH i). repeat split; try assumption.
        intros j c' l' Hj. apply (Hbefore (S j)). lia. }
      destruct (Requests c0) as [l0|]; [rewrite (H0 l0 eq_refl)|]; exact Hrest.
Qed.

(** Either no container asks for a GPU, or one of them is the first. *)
Lemma first_or_none (σ : store) containers :
  noGPUContainer σ containers
  \/ exists i c l, firstGPUContainer σ containers i c l.
Proof.
  unfold noGPUContainer, firstGPUContainer.
  induction containers as [|c0 rest IH].
  - left. intros c l [].
  - assert ((exists l0, Requests c0 = Some l0 /\ requestsGPU (deref σ l0))
            \/ (forall l0, Requests c0 = Some l0 -> ~ requestsGPU (deref σ l0))) as [Hc|Hc].
    { destruct (Requests c0) as [l0|]; [|right; discriminate].
      destruct (needPatch (deref σ l0)) eqn:E.
      - left. exists l0. split; [reflexivity | now apply needPatch_spec].
      - right. intros l1 [= <-]. now apply needPatch_false. }
    + destruct Hc as (l0 & Hl0 & Hg). right. exists 0%nat, c0, l0.
      repeat split; try assumption. intros j c' l' Hj. lia.
    + destruct IH as [IH | (i & c & l & Hi & Hl & Hg & Hbefore)].
      * left. intros c l [<- | Hin]; [apply Hc | now apply IH].
      * right. exists (S i), c, l. repeat split; try assumption.
        intros [|j] c' l' Hj Hc' Hl'.
        -- injection Hc' as <-. now apply Hc.
        -- apply (Hbefore j c' l'); [lia | exact Hc' | exact Hl'].
Qed.

End PatchFacts.

Module PatchClaims.
Import Resource Corev1 Apiext Deviceshare DeviceshareSpec PatchFacts.

(** C9: [patchContainerGPUResource] leaves the store as it is when no
    container's request map holds a GPU name. Otherwise it writes to one
    map only, that of the first container whose request map holds a GPU
    name: there the entries for core-share, memory bytes and memory-ratio
    become the values of the canonical request and every other entry is
    kept; every other map of the store, hence the request map of every
    other container, is unchanged. One of the two cases always holds. *)
Theorem patch_first_gpu_container pod podRequest (σ : store) :
  (noGPUContainer σ (Containers pod) ->
   patchContainerGPUResource pod podRequest σ = σ)
  /\ (forall i c l,
        firstGPUContainer σ (Containers pod) i c l ->
        let σ' := patchContainerGPUResource pod podRequest σ in
        (forall v, In v patchedNames -> deref σ' l !! v = Some (rl_index podRequest v))
        /\ (forall k, ~ In k patchedNames -> deref σ' l !! k = deref σ l !! k)
        /\ (forall l', l' <> l -> σ' !! l' = σ !! l')
        /\ (forall c' l', In c' (Containers pod) -> Requests c' = Some l' -> l' <> l ->
                          deref σ' l' = deref σ l'))
  /\ (noGPUContainer σ (Containers pod)
      \/ exists i c l, firstGPUContainer σ (Containers pod) i c l).
Proof.
  unfold patchContainerGPUResource. split; [|split].
  - apply patchContainers_none.
  - intros i c l Hfirst. cbv zeta.
    rewrite (patchContainers_first _ podRequest σ i c l Hfirst).
    split; [|split; [|split]].
    + intros v Hv. rewrite deref_insert_eq. now apply patchRequests_written.
    + intros k Hk. rewrite deref_insert_eq. now apply patchRequests_kept.
    + intros l' Hne. apply lookup_insert_ne. congruence.
    + intros c' l' Hin Hc' Hne. apply deref_insert_ne. congruence.
  - apply first_or_none.
Qed.

Lemma patch_first_gpu_container_witness :
  let σ' := patchContainerGPUResource threeContainers canonicalRequest threeContainersStore in
  (forall v, In v patchedNames ->
             deref σ' 2%positive !! v = Some (rl_index canonicalRequest v))
  /\ (forall k, ~ In k patchedNames ->
                deref σ' 2%positive !! k = deref threeContainersStore 2%positive !! k)
  /\ (forall l', l' <> 2%positive -> σ' !! l' = threeContainersStore !! l')
  /\ (forall c' l', In c' (Containers threeContainers) -> Requests c' = Some l' ->
                    l' <> 2%positive -> deref σ' l' = deref threeContainersStore l').
Proof.
  apply (proj1 (proj2 (patch_first_gpu_container threeContainers canonicalRequest
                         threeContainersStore))
           2%nat {| ContainerName := "main"; Requests := Some 2%positive |}).
  split; [reflexivity|]. split; [reflexivity|]. split.
  - exists ResourceNvidiaGPU. split; [simpl; tauto | vm_compute; eauto].
  - intros j c' l' Hj Hc Hl. apply needPatch_false.
    destruct j as [|[|j]]; [| |lia]; vm_compute in Hc; injection Hc as <-;
      vm_compute in Hl; [discriminate | injection Hl as <-; reflexivity].
Defined.

End PatchClaims.


(** ** Reserve pods *)
Module ReservationFacts.
Import Reservation.

Lemma append_cancel_l (p a b : string) : p +:+ a = p +:+ b -> a = b.
Proof.
  induction p as [|ch p IH]; cbn; intros H; [assumption|].
  injection H as H. now apply IH.
Qed.

Lemma reserve_pod_name_keys prefix :
  AnnotationReservePod prefix <> AnnotationReservationName prefix.
Proof.
  unfold AnnotationReservePod, AnnotationReservationName.
  intros H. apply append_cancel_l in H. discriminate.
Qed.

Lemma reserve_pod_node_keys prefix :
  AnnotationReservationNode prefix <> AnnotationReservePod prefix.
Proof.
  unfold AnnotationReservePod, AnnotationReservationNode.
  intros H. apply append_cancel_l in H. discriminate.
Qed.

Lemma name_node_keys prefix :
  AnnotationReservationNode prefix <> AnnotationReservationName prefix.
Proof.
  unfold AnnotationReservationName, AnnotationReservationNode.
  intros H. apply append_cancel_l in H. discriminate.
Qed.

(** The annotations of the reserve pod are a map that holds the two
    marks. *)
Lemma NewReservePod_annotations prefix r :
  exists annotations,
    Annotations (PodMeta (NewReservePod prefix r)) = Some annotations
    /\ annotations !! AnnotationReservePod prefix = Some "true"
    /\ annotations !! AnnotationReservationName prefix = Some (Name (RMeta r)).
Proof.
  pose proof (reserve_pod_name_keys prefix) as H1.
  pose proof (reserve_pod_node_keys prefix) as H2.
  pose proof (name_node_keys prefix) as H3.
  unfold NewReservePod.
  repeat match goal with
         | |- context [if ?b then _ else _] => destruct b
         | |- context [match ?o with Some _ => _ | None => _ end] => destruct o
         end;
    cbn; eexists; (split; [reflexivity|]);
    rewrite ?(lookup_insert_ne _ _ _ _ H2), ?(lookup_insert_ne _ _ _ _ H3);
    (split; [rewrite (lookup_insert_ne _ _ _ _ (not_eq_sym H1)) | ]);
    apply lookup_insert_eq.
Qed.

End ReservationFacts.

Module ReservationClaims.
Import Reservation ReservationFacts.

(** C10: whatever the reservation, the pod [NewReservePod] builds from it
    is recognized by [IsReservePod], and
    [GetReservationNameFromReservePod] gives back the reservation's name. *)
Theorem reserve_pod_recognized prefix r :
  IsReservePod prefix (Some (NewReservePod prefix r)) = true
  /\ GetReservationNameFromReservePod prefix (NewReservePod prefix r) = Name (RMeta r).
Proof.
  destruct (NewReservePod_annotations prefix r) as (a & Ha & Hpod & Hname).
  unfold IsReservePod, GetReservationNameFromReservePod, index.
  rewrite Ha, Hpod, Hname. split; reflexivity.
Qed.

Example sampleReservation_pod :
  IsReservePod "scheduling.koordinator.sh"
    (Some (NewReservePod "scheduling.koordinator.sh" sampleReservation)) = true
  /\ GetReservePodNodeName "scheduling.koordinator.sh"
       (NewReservePod "scheduling.koordinator.sh" sampleReservation) = "node-1"
  /\ Phase (NewReservePod "scheduling.koordinator.sh" sampleReservation) = PodFailed.
Proof. repeat split; vm_compute; reflexivity. Qed.

End ReservationClaims.


(** ** Unit conversions on a zero total *)
Module ZeroTotalFacts.
Import Resource Corev1 Apiext Deviceshare DeviceshareSpec.

Lemma float64_of_zero : Go.float64_of_int64 0 = S754_zero false.
Proof. reflexivity. Qed.

Lemma float64_of_hundred :
  Go.float64_of_int64 100 = S754_finite false 7036874417766400 (-46).
Proof. reflexivity. Qed.

(** Dividing by a zero and multiplying by 100 never gives a finite
    number. *)
Lemma div_zero_mul_hundred x :
  let f := Go.float64_mul (Go.float64_div x (S754_zero false))
                          (S754_finite false 7036874417766400 (-46)) in
  f = S754_nan \/ exists s, f = S754_infinity s.
Proof.
  destruct x as [s|s| |s m e]; cbn; eauto.
Qed.

End ZeroTotalFacts.

Module ZeroTotalClaims.
Import Resource Corev1 Apiext Deviceshare DeviceshareSpec ZeroTotalFacts.

(** C7, as stated, fails: with a total memory of zero [memRatioToBytes]
    returns the quantity 0, not a divide-by-zero failure; its only division
    is by the constant 100. *)
Lemma zero_total_counterexample :
  memRatioToBytes (quantity 50) (quantity 0) = Go.Ok (NewQuantity 0 BinarySI)
  /\ memRatioToBytes (quantity 50) (quantity 0) <> Go.Panic Go.DivideByZero.
Proof.
  split; [reflexivity | discriminate].
Qed.

(** C7, amended: with a total memory of zero neither conversion fails.
    [memRatioToBytes] returns 0 bytes for every ratio, and
    [memBytesToRatio] returns, for every bytes value, what the platform's
    conversion to [int64] makes of the float64 division by zero, a NaN or
    an infinity. *)
Theorem zero_total_no_failure convIndefinite ratio bytes totalMemory :
  Value totalMemory = 0 ->
  memRatioToBytes ratio totalMemory = Go.Ok (NewQuantity 0 BinarySI)
  /\ exists f, (f = S754_nan \/ exists s, f = S754_infinity s)
               /\ memBytesToRatio convIndefinite bytes totalMemory
                  = NewQuantity (convIndefinite f) DecimalSI.
Proof.
  intros H0. split.
  - unfold memRatioToBytes, Go.int64_mul. rewrite H0, Z.mul_0_r. reflexivity.
  - unfold memBytesToRatio. rewrite H0, float64_of_zero, float64_of_hundred.
    pose proof (div_zero_mul_hundred (Go.float64_of_int64 (Value bytes))) as Hf.
    cbv zeta in Hf. destruct Hf as [Hf | [s Hf]]; rewrite Hf; cbn [Go.float64_to_int64];
      eexists; (split; [|reflexivity]); eauto.
Qed.

Lemma zero_total_no_failure_witness :
  memRatioToBytes (quantity 50) (quantity 0) = Go.Ok (NewQuantity 0 BinarySI)
  /\ exists f, (f = S754_nan \/ exists s, f = S754_infinity s)
               /\ memBytesToRatio Go.amd64_indefinite (quantity 1024) (quantity 0)
                  = NewQuantity (Go.amd64_indefinite f) DecimalSI.
Proof.
  apply (zero_total_no_failure Go.amd64_indefinite (quantity 50) (quantity 1024)
           (quantity 0)).
  reflexivity.
Defined.

End ZeroTotalClaims.


(** ** binary64 arithmetic on normalized numbers *)
Module Float64Facts.
Import Go Float64Spec.

Lemma digits2_size p : digits2_pos p = Pos.size p.
Proof. induction p; simpl; congruence. Qed.

Lemma digits2_bounds p :
  2 ^ (Zpos (digits2_pos p) - 1) <= Zpos p < 2 ^ Zpos (digits2_pos p).
Proof.
  rewrite digits2_size. split.
  - pose proof (Pos.size_le p) as H.
    assert (Zpos (2 ^ Pos.size p) <= Zpos p~0)%Z as H' by (apply Pos2Z.pos_le_pos; exact H).
    rewrite Pos2Z.inj_pow in H'.
    replace (Zpos (Pos.size p)) with (Z.succ (Zpos (Pos.size p) - 1)) in H' by lia.
    rewrite Z.pow_succ_r in H' by lia. lia.
  - pose proof (Pos.size_gt p) as H.
    assert (Zpos p < Zpos (2 ^ Pos.size p))%Z as H' by (apply Pos2Z.pos_lt_pos; exact H).
    now rewrite Pos2Z.inj_pow in H'.
Qed.

Lemma digits_unique m d :
  0 < d -> 2 ^ (d - 1) <= m < 2 ^ d -> Zdigits2 m = d.
Proof.
  intros Hd [Hlo Hhi].
  assert (0 < m) as Hm by (pose proof (Z.pow_pos_nonneg 2 (d - 1)); lia).
  destruct m as [|p|p]; try lia. simpl.
  pose proof (digits2_bounds p) as [H1 H2].
  set (d' := Zpos (digits2_pos p)) in *.
  assert (0 < d') by (unfold d'; lia).
  destruct (Z.lt_trichotomy d' d) as [Hlt | [Heq | Hgt]]; [exfalso | assumption | exfalso].
  - assert (2 ^ d' <= 2 ^ (d - 1)) by (apply Z.pow_le_mono_r; lia). lia.
  - assert (2 ^ d <= 2 ^ (d' - 1)) by (apply Z.pow_le_mono_r; lia). lia.
Qed.

Lemma div_mod_double X D :
  0 <= X -> 0 < D ->
  X / (2 * D) = (X / D) / 2
  /\ X mod (2 * D) = X mod D + D * ((X / D) mod 2).
Proof.
  intros HX HD.
  pose proof (Z.div_mod X D ltac:(lia)) as E.
  pose proof (Z.mod_pos_bound X D HD) as B.
  pose proof (Z.div_mod (X / D) 2 ltac:(lia)) as E2.
  pose proof (Z.mod_pos_bound (X / D) 2 ltac:(lia)) as B2.
  assert (X = (2 * D) * ((X / D) / 2) + (X mod D + D * ((X / D) mod 2))) as E3 by nia.
  assert (0 <= X mod D + D * ((X / D) mod 2) < 2 * D) as B3 by nia.
  split.
  - symmetry. eapply Z.div_unique_pos; eassumption.
  - symmetry. eapply Z.mod_unique_pos; eassumption.
Qed.

Ltac zbool :=
  repeat match goal with
         | |- context [?a <=? ?b] => destruct (Z.leb_spec a b)
         | |- context [?a <? ?b] => destruct (Z.ltb_spec a b)
         | |- context [?a =? ?b] => destruct (Z.eqb_spec a b)
         end;
  cbn [negb orb andb]; try reflexivity; try lia.

Lemma shr_1_represents rec X D :
  0 <= X -> 0 < D -> represents rec X D -> represents (shr_1 rec) X (2 * D).
Proof.
  intros HX HD (Hm & Hr & Hs).
  destruct (div_mod_double X D HX HD) as [Ed Em].
  pose proof (Z.mod_pos_bound X D HD) as B.
  pose proof (Z.mod_pos_bound (X / D) 2 ltac:(lia)) as B2.
  destruct rec as [m r s]. cbn [shr_m shr_r shr_s] in *.
  unfold represents. rewrite Ed, Em, <- Hm.
  assert (orb r s = negb (X mod D =? 0)) as Hrs by (subst r s; zbool).
  assert (forall c, c = 0 \/ c = 1 ->
            (2 * D <=? 2 * (X mod D + D * c)) = (c =? 1)
            /\ negb ((X mod D + D * c =? 0) || (2 * (X mod D + D * c) =? 2 * D))
               = negb (X mod D =? 0)) as Hc.
  { intros c [-> | ->]; split; zbool. }
  assert (0 <= m) as Hm0 by (subst m; apply Z.div_pos; lia).
  destruct m as [|[p|p|]|p]; try lia; cbn [shr_1 shr_m shr_r shr_s]; rewrite Hrs.
  - destruct (Hc 0 ltac:(lia)) as [H1 H2].
    change (0 mod 2) with 0. rewrite H1, H2. repeat split.
  - assert (Zpos p~1 mod 2 = 1) as E
      by (rewrite Pos2Z.inj_xI, Z.add_comm, Z.mul_comm, Z.mod_add; [reflexivity | lia]).
    destruct (Hc 1 ltac:(lia)) as [H1 H2]. rewrite E, H1, H2.
    repeat split.
    rewrite Pos2Z.inj_xI. apply Z.div_unique_pos with 1; lia.
  - assert (Zpos p~0 mod 2 = 0) as E
      by (rewrite Pos2Z.inj_xO, Z.mul_comm, Z.mod_mul; [reflexivity | lia]).
    destruct (Hc 0 ltac:(lia)) as [H1 H2]. rewrite E, H1, H2.
    repeat split.
    rewrite Pos2Z.inj_xO. apply Z.div_unique_pos with 0; lia.
  - destruct (Hc 1 ltac:(lia)) as [H1 H2].
    change (1 mod 2) with 1. rewrite H1, H2. repeat split.
Qed.

Lemma pow2_xO p : 2 ^ Zpos p~0 = 2 ^ Zpos p * 2 ^ Zpos p.
Proof.
  assert (Zpos p~0 = Zpos p + Zpos p) as -> by lia.
  now rewrite Z.pow_add_r by lia.
Qed.

Lemma pow2_xI p : 2 ^ Zpos p~1 = 2 ^ Zpos p * (2 ^ Zpos p * 2).
Proof.
  assert (Zpos p~1 = Zpos p + (Zpos p + 1)) as -> by lia.
  now rewrite !Z.pow_add_r by lia.
Qed.

Lemma iter_shr_represents p : forall rec X D,
  0 <= X -> 0 < D -> represents rec X D ->
  represents (SpecFloat.iter_pos shr_1 p rec) X (2 ^ Zpos p * D).
Proof.
  induction p as [p IH | p IH |]; intros rec X D HX HD H; cbn [SpecFloat.iter_pos];
    try pose proof (Z.pow_pos_nonneg 2 (Zpos p) ltac:(lia) ltac:(lia)) as Hp.
  - apply shr_1_represents in H; try assumption.
    apply IH in H; try lia. apply IH in H; try nia.
    rewrite pow2_xI. 
    replace (2 ^ Zpos p * (2 ^ Zpos p * 2) * D) with (2 ^ Zpos p * (2 ^ Zpos p * (2 * D))) by ring.
    exact H.
  - apply IH in H; try lia. apply IH in H; try nia.
    rewrite pow2_xO.
    replace (2 ^ Zpos p * 2 ^ Zpos p * D) with (2 ^ Zpos p * (2 ^ Zpos p * D)) by ring.
    exact H.
  - change (2 ^ 1) with 2. now apply shr_1_represents.
Qed.

Lemma record_of_loc_represents m l X D :
  0 < D -> m = X / D -> describes l X D ->
  represents (shr_record_of_loc m l) X D.
Proof.
  intros HD -> Hl. pose proof (Z.mod_pos_bound X D HD) as B.
  destruct l as [|[| |]]; cbn [describes] in Hl; cbn [shr_record_of_loc]; unfold represents;
    cbn [shr_m shr_r shr_s]; (split; [reflexivity|]); split; zbool.
Qed.

Lemma round_nearest_even_rne rec X D :
  0 < D -> represents rec X D ->
  round_nearest_even (shr_m rec) (loc_of_shr_record rec) = rne X D.
Proof.
  intros HD (Hm & Hr & Hs). pose proof (Z.mod_pos_bound X D HD) as B.
  destruct rec as [m r s]. cbn [shr_m shr_r shr_s] in *. subst m.
  unfold rne. cbv zeta.
  destruct r, s; cbn [loc_of_shr_record round_nearest_even];
    revert Hr Hs; zbool; try discriminate; intros; try reflexivity.
Qed.

Lemma shr_represents rec e n X D :
  0 <= X -> 0 < D -> 0 <= n -> represents rec X D ->
  represents (fst (shr rec e n)) X (2 ^ n * D) /\ snd (shr rec e n) = e + n.
Proof.
  intros HX HD Hn H. destruct n as [|p|p]; try lia; cbn [shr fst snd].
  - rewrite Z.pow_0_r, Z.mul_1_l, Z.add_0_r. now split.
  - split; [now apply iter_shr_represents | reflexivity].
Qed.

Lemma fexp_normal e : -1021 <= e -> fexp prec emax e = e - 53.
Proof. unfold fexp, emin, prec, emax. lia. Qed.

Lemma rne_exact X D : 0 < D -> X mod D = 0 -> rne X D = X / D.
Proof. intros HD H. unfold rne. rewrite H. cbv zeta. zbool. Qed.

Lemma rne_near X D : 0 < D -> 2 * Z.abs (rne X D * D - X) <= D.
Proof.
  intros HD. unfold rne. cbv zeta.
  pose proof (Z.div_mod X D ltac:(lia)). pose proof (Z.mod_pos_bound X D HD).
  zbool; try nia. destruct (Z.even (X / D)); nia.
Qed.

Lemma rne_between X D lo hi :
  0 < D -> lo * D <= X -> X <= hi * D -> lo <= rne X D <= hi.
Proof.
  intros HD Hlo Hhi. unfold rne. cbv zeta.
  pose proof (Z.div_mod X D ltac:(lia)). pose proof (Z.mod_pos_bound X D HD).
  assert (lo <= X / D) by (apply Z.div_le_lower_bound; lia).
  assert (X / D <= hi) by (apply Z.div_le_upper_bound; lia).
  assert (X mod D <> 0 -> X / D + 1 <= hi) by nia.
  zbool; try lia. destruct (Z.even (X / D)); lia.
Qed.

Lemma shr_fexp_normalized m e :
  2 ^ 52 <= m < 2 ^ 53 -> -1074 <= e ->
  shr_fexp prec emax m e loc_Exact = (Build_shr_record m false false, e).
Proof.
  intros Hm He. unfold shr_fexp.
  rewrite (digits_unique m 53) by (simpl; lia).
  rewrite fexp_normal by lia.
  replace (53 + e - 53 - e) with 0 by lia. reflexivity.
Qed.

Lemma shr_fexp_carry e :
  -1074 <= e ->
  shr_fexp prec emax (2 ^ 53) e loc_Exact = (Build_shr_record (2 ^ 52) false false, e + 1).
Proof.
  intros He. unfold shr_fexp.
  rewrite (digits_unique (2 ^ 53) 54) by (simpl; lia).
  rewrite fexp_normal by lia.
  replace (54 + e - 53 - e) with 1 by lia. reflexivity.
Qed.

Lemma round_aux_spec s mx ex lx X D :
  0 < X -> 0 < D -> mx = X / D -> describes lx X D ->
  53 <= Zdigits2 mx ->
  -1021 <= Zdigits2 mx + ex ->
  Zdigits2 mx + ex <= 1023 ->
  binary_round_aux prec emax s mx ex lx
  = mkfloat s (rne X (2 ^ (Zdigits2 mx - 53) * D)) (ex + (Zdigits2 mx - 53)).
Proof.
  intros HX HD Hmx Hl Hd Hlo Hhi.
  assert (0 < mx) as Hpos.
  { destruct mx as [|p|p]; [cbn in Hd; lia | lia |].
    exfalso. assert (X / D >= 0) by (apply Z_div_ge0; lia). lia. }
  set (d := Zdigits2 mx) in *. set (n := d - 53).
  assert (2 ^ (d - 1) <= mx < 2 ^ d) as Hb.
  { destruct mx as [|p|p]; try lia. apply digits2_bounds. }
  pose proof (Z.pow_pos_nonneg 2 n ltac:(lia) ltac:(lia)) as Hn.
  assert (2 ^ (d - 1) = 2 ^ n * 2 ^ 52) as E1
    by (rewrite <- Z.pow_add_r by lia; f_equal; lia).
  assert (2 ^ d = 2 ^ n * 2 ^ 53) as E2
    by (rewrite <- Z.pow_add_r by lia; f_equal; lia).
  pose proof (Z.div_mod X D ltac:(lia)) as EX.
  pose proof (Z.mod_pos_bound X D HD) as BX.
  assert (2 ^ 52 * (2 ^ n * D) <= X) as Xlo by nia.
  assert (X <= 2 ^ 53 * (2 ^ n * D)) as Xhi by nia.
  pose proof (rne_between X (2 ^ n * D) (2 ^ 52) (2 ^ 53) ltac:(nia) Xlo Xhi) as Hm2.
  unfold binary_round_aux.
  assert (shr_fexp prec emax mx ex lx
          = shr (shr_record_of_loc mx lx) ex n) as ->.
  { unfold shr_fexp. fold d. rewrite fexp_normal by lia. f_equal. unfold n. lia. }
  pose proof (record_of_loc_represents mx lx X D HD Hmx Hl) as Hrec.
  destruct (shr_represents _ ex n X D ltac:(lia) HD ltac:(unfold n; lia) Hrec) as [Hr He].
  destruct (shr (shr_record_of_loc mx lx) ex n) as [mrs' e'].
  cbn [fst snd] in Hr, He. subst e'.
  rewrite (round_nearest_even_rne mrs' X (2 ^ n * D)) by (nia || assumption).
  set (m2 := rne X (2 ^ n * D)) in *.
  unfold mkfloat. destruct (Z.ltb_spec m2 (2 ^ 53)) as [Hlt | Hge].
  - rewrite shr_fexp_normalized by (unfold n; lia). cbn [shr_m].
    destruct m2 as [|p|p]; try lia.
    replace (ex + n <=? emax - prec) with true; [reflexivity|].
    symmetry. apply Z.leb_le. unfold emax, prec, n. lia.
  - assert (m2 = 2 ^ 53) as -> by lia.
    rewrite shr_fexp_carry by (unfold n; lia). cbn [shr_m].
    change (2 ^ 52) with (Zpos (Z.to_pos (2 ^ 52))) at 1. cbv iota.
    replace (ex + n + 1 <=? emax - prec) with true; [reflexivity|].
    symmetry. apply Z.leb_le. unfold emax, prec, n. lia.
Qed.

Lemma bpow_pos e : (0 < bpow e)%R.
Proof. apply powerRZ_lt. lra. Qed.

Lemma bpow_add a b : bpow (a + b) = (bpow a * bpow b)%R.
Proof. apply powerRZ_add. lra. Qed.

Lemma bpow_IZR n : 0 <= n -> bpow n = IZR (2 ^ n).
Proof.
  intros Hn. unfold bpow.
  rewrite <- (Z2Nat.id n Hn) at 1. rewrite <- pow_powerRZ.
  rewrite pow_IZR. now rewrite Z2Nat.id.
Qed.

Lemma bpow_0 : bpow 0 = 1%R.
Proof. reflexivity. Qed.


Lemma bpow_1 : bpow 1 = 2%R.
Proof. rewrite bpow_IZR by lia. reflexivity. Qed.

Lemma bpow_ge_2 k : 1 <= k -> (2 <= bpow k)%R.
Proof.
  intros Hk. rewrite bpow_IZR by lia.
  assert (2 ^ 1 <= 2 ^ k) by (apply Z.pow_le_mono_r; lia).
  change 2%R with (IZR 2). apply IZR_le. lia.
Qed.

Lemma bpow_sub a b : bpow (a - b) = (bpow a / bpow b)%R.
Proof.
  pose proof (bpow_pos b).
  apply Rmult_eq_reg_r with (bpow b); [|lra].
  rewrite <- bpow_add. replace (a - b + b) with a by lia. field. lra.
Qed.

(** Two numbers with mantissas in one binade that agree have the same exponent. *)
Lemma binade_unique (y y0 : R) (e e0 : Z) (c : R) :
  (0 < c)%R ->
  (c <= y < 2 * c)%R -> (c <= y0 < 2 * c)%R ->
  (y * bpow e = y0 * bpow e0)%R -> e = e0 /\ y = y0.
Proof.
  intros Hc Hy Hy0 H.
  assert (forall a a0 f f0, (c <= a < 2 * c)%R -> (c <= a0 < 2 * c)%R ->
            (a * bpow f = a0 * bpow f0)%R -> f < f0 -> False) as Hlt.
  { intros a a0 f f0 Ha Ha0 E Hf.
    replace f0 with (f + (f0 - f)) in E by lia. rewrite bpow_add in E.
    pose proof (bpow_pos f). pose proof (bpow_ge_2 (f0 - f) ltac:(lia)).
    assert (a = a0 * bpow (f0 - f))%R.
    { apply Rmult_eq_reg_r with (bpow f); [|lra]. rewrite E. ring. }
    nra. }
  destruct (Z.lt_trichotomy e e0) as [Hl | [He | Hg]].
  - exfalso. eapply (Hlt y y0 e e0); eassumption.
  - split; [assumption|]. subst e0. pose proof (bpow_pos e).
    apply Rmult_eq_reg_r with (bpow e); [assumption | lra].
  - exfalso. eapply (Hlt y0 y e0 e); try eassumption. now symmetry.
Qed.

Lemma mkfloat_val s m2 e :
  2 ^ 52 <= m2 <= 2 ^ 53 ->
  exists m e', mkfloat s m2 e = S754_finite s m e'
    /\ 2 ^ 52 <= Zpos m < 2 ^ 53 /\ e <= e' <= e + 1
    /\ val (Zpos m) e' = val m2 e
    /\ (m2 < 2 ^ 53 -> Zpos m = m2 /\ e' = e).
Proof.
  intros Hm. unfold mkfloat. destruct (Z.ltb_spec m2 (2 ^ 53)) as [Hlt | Hge].
  - exists (Z.to_pos m2), e. rewrite Z2Pos.id by lia.
    repeat split; try lia.
  - exists (Z.to_pos (2 ^ 52)), (e + 1). rewrite Z2Pos.id by lia.
    repeat split; try lia.
    assert (m2 = 2 ^ 53) as -> by lia.
    unfold val. rewrite bpow_add.
    change (2 ^ 53) with (2 * 2 ^ 52). rewrite mult_IZR.
    rewrite bpow_1. ring.
Qed.

Lemma round_R s mx ex lx X D :
  0 < X -> 0 < D -> mx = X / D -> describes lx X D ->
  53 <= Zdigits2 mx ->
  -1021 <= Zdigits2 mx + ex ->
  Zdigits2 mx + ex <= 1023 ->
  exists m e,
    binary_round_aux prec emax s mx ex lx = S754_finite s m e
    /\ 2 ^ 52 <= Zpos m < 2 ^ 53
    /\ ex + (Zdigits2 mx - 53) <= e <= ex + (Zdigits2 mx - 53) + 1
    /\ (Rabs (val (Zpos m) e - IZR X / IZR D * bpow ex)
        <= u * (IZR X / IZR D * bpow ex))%R
    /\ (forall m0 e0, 2 ^ 52 <= m0 < 2 ^ 53 ->
          (IZR X / IZR D * bpow ex)%R = val m0 e0 -> Zpos m = m0 /\ e = e0).
Proof.
  intros HX HD Hmx Hl Hd Hlo Hhi.
  rewrite (round_aux_spec s mx ex lx X D) by assumption.
  assert (0 < mx) as Hpos.
  { destruct mx as [|p|p]; [cbn in Hd; lia | lia |].
    exfalso. assert (X / D >= 0) by (apply Z_div_ge0; lia). lia. }
  set (d := Zdigits2 mx) in *. set (n := d - 53).
  assert (2 ^ (d - 1) <= mx < 2 ^ d) as Hb.
  { destruct mx as [|p|p]; try lia. apply digits2_bounds. }
  pose proof (Z.pow_pos_nonneg 2 n ltac:(lia) ltac:(lia)) as Hn.
  assert (2 ^ (d - 1) = 2 ^ n * 2 ^ 52) as E1
    by (rewrite <- Z.pow_add_r by lia; f_equal; lia).
  assert (2 ^ d = 2 ^ n * 2 ^ 53) as E2
    by (rewrite <- Z.pow_add_r by lia; f_equal; lia).
  pose proof (Z.div_mod X D ltac:(lia)) as EX.
  pose proof (Z.mod_pos_bound X D HD) as BX.
  set (D' := 2 ^ n * D) in *.
  assert (0 < D') as HD' by (unfold D'; nia).
  assert (2 ^ 52 * D' <= X) as Xlo by (unfold D'; nia).
  assert (X < 2 ^ 53 * D') as Xhi by (unfold D'; nia).
  pose proof (rne_between X D' (2 ^ 52) (2 ^ 53) HD' Xlo ltac:(lia)) as Hm2.
  pose proof (rne_near X D' HD') as Hnear.
  set (m2 := rne X D') in *.
  destruct (mkfloat_val s m2 (ex + n) Hm2) as (m & e & -> & Hm & He & Hv & Hex).
  exists m, e. split; [reflexivity|]. split; [assumption|]. split; [assumption|].
  set (y := (IZR X / IZR D')%R).
  assert (0 < IZR D')%R as RD' by (apply IZR_lt; assumption).
  assert (0 < IZR D)%R as RD by (apply IZR_lt; assumption).
  assert (IZR X / IZR D * bpow ex = y * bpow (ex + n))%R as Ex.
  { unfold y, D'. rewrite mult_IZR, bpow_add, (bpow_IZR n) by (unfold n; lia).
    assert (0 < IZR (2 ^ n))%R by (apply IZR_lt; assumption).
    field. lra. }
  assert (IZR (2 ^ 52) <= y)%R as Ylo.
  { unfold y. apply Rmult_le_reg_r with (IZR D'); [assumption|].
    unfold Rdiv. rewrite Rmult_assoc, Rinv_l, Rmult_1_r by lra.
    rewrite <- mult_IZR. now apply IZR_le. }
  assert (y < 2 * IZR (2 ^ 52))%R as Yhi.
  { unfold y. apply Rmult_lt_reg_r with (IZR D'); [assumption|].
    unfold Rdiv. rewrite Rmult_assoc, Rinv_l, Rmult_1_r by lra.
    change 2%R with (IZR 2). rewrite <- !mult_IZR. apply IZR_lt.
    change (2 * 2 ^ 52) with (2 ^ 53). assumption. }
  assert (0 < IZR (2 ^ 52))%R as P52 by (apply IZR_lt; reflexivity).
  assert (Rabs (IZR m2 - y) <= / 2)%R as Hhalf.
  { unfold y. apply Rmult_le_reg_r with (2 * IZR D')%R; [lra|].
    replace (/ 2 * (2 * IZR D'))%R with (IZR D') by field.
    replace (Rabs (IZR m2 - IZR X / IZR D') * (2 * IZR D'))%R
      with (2 * Rabs (IZR m2 * IZR D' - IZR X))%R.
    - rewrite <- mult_IZR, <- minus_IZR, <- abs_IZR.
      change 2%R with (IZR 2). rewrite <- mult_IZR. now apply IZR_le.
    - replace (IZR m2 * IZR D' - IZR X)%R with ((IZR m2 - IZR X / IZR D') * IZR D')%R
        by (field; lra).
      rewrite Rabs_mult, (Rabs_pos_eq (IZR D')) by lra. ring. }
  pose proof (bpow_pos (ex + n)) as HE.
  split.
  - rewrite Hv, Ex. unfold val.
    replace (IZR m2 * bpow (ex + n) - y * bpow (ex + n))%R
      with ((IZR m2 - y) * bpow (ex + n))%R by ring.
    rewrite Rabs_mult, (Rabs_pos_eq (bpow (ex + n))) by lra.
    assert (/ 2 <= u * y)%R.
    { unfold u. change (2 ^ 53) with (2 * 2 ^ 52). rewrite mult_IZR.
      apply Rmult_le_reg_l with (2 * IZR (2 ^ 52))%R; [lra|].
      replace (2 * IZR (2 ^ 52) * (/ (IZR 2 * IZR (2 ^ 52)) * y))%R with y by (field; lra).
      lra. }
    replace (u * (y * bpow (ex + n)))%R with (u * y * bpow (ex + n))%R by ring.
    apply Rmult_le_compat_r; lra.
  - intros m0 e0 Hm0 Hx. rewrite Ex in Hx. unfold val in Hx.
    assert (IZR (2 ^ 52) <= IZR m0 < 2 * IZR (2 ^ 52))%R as Hm0R.
    { split; [apply IZR_le; lia|]. change 2%R with (IZR 2). rewrite <- mult_IZR.
      apply IZR_lt. change (2 * 2 ^ 52) with (2 ^ 53). lia. }
    destruct (binade_unique y (IZR m0) (ex + n) e0 (IZR (2 ^ 52)) P52
                ltac:(lra) Hm0R Hx) as [He0 Hy].
    assert (X = m0 * D') as HXm.
    { apply eq_IZR. rewrite mult_IZR, <- Hy. unfold y. field. lra. }
    assert (m2 = m0) as Hm2eq.
    { unfold m2. rewrite rne_exact; [| assumption | rewrite HXm; apply Z.mod_mul; lia].
      rewrite HXm. apply Z.div_mul. lia. }
    destruct (Hex ltac:(lia)) as [-> ->]. split; [assumption | lia].
Qed.

Lemma digits_ge m k : 0 < k -> 2 ^ (k - 1) <= m -> k <= Zdigits2 m.
Proof.
  intros Hk Hm.
  assert (0 < m) by (pose proof (Z.pow_pos_nonneg 2 (k - 1)); lia).
  destruct m as [|p|p]; try lia. cbn [Zdigits2].
  pose proof (digits2_bounds p) as [_ H2].
  destruct (Z_lt_le_dec (Zpos (digits2_pos p)) k) as [Hlt|]; [exfalso | assumption].
  assert (2 ^ Zpos (digits2_pos p) <= 2 ^ (k - 1)) by (apply Z.pow_le_mono_r; lia). lia.
Qed.

Lemma digits_le m k : 0 < m -> m < 2 ^ k -> Zdigits2 m <= k.
Proof.
  intros Hm Hk. destruct m as [|p|p]; try lia. cbn [Zdigits2].
  pose proof (digits2_bounds p) as [H1 _].
  destruct (Z_lt_le_dec k (Zpos (digits2_pos p))) as [Hlt|]; [exfalso | assumption].
  assert (0 <= k)
    by (destruct (Z_lt_le_dec k 0); [rewrite Z.pow_neg_r in Hk by lia; lia | lia]).
  assert (2 ^ k <= 2 ^ (Zpos (digits2_pos p) - 1)) by (apply Z.pow_le_mono_r; lia). lia.
Qed.

Lemma iter_xO p k : Zpos (Pos.iter xO p k) = Zpos p * 2 ^ Zpos k.
Proof.
  induction k as [|k IH] using Pos.peano_ind.
  - cbn [Pos.iter]. rewrite Pos2Z.inj_xO. change (2 ^ 1) with 2. lia.
  - rewrite Pos.iter_succ, Pos2Z.inj_xO, IH, Pos2Z.inj_succ, Z.pow_succ_r by lia. ring.
Qed.

Lemma shl_align_spec mx ex ex' :
  ex' <= ex ->
  exists mz, shl_align mx ex ex' = (mz, ex') /\ Zpos mz = Zpos mx * 2 ^ (ex - ex').
Proof.
  intros H. unfold shl_align.
  destruct (ex' - ex) as [|d|d] eqn:E; try lia.
  - exists mx. assert (ex' = ex) as -> by lia. split; [reflexivity|].
    rewrite Z.sub_diag. change (2 ^ 0) with 1. lia.
  - exists (Pos.iter xO mx d). split; [reflexivity|].
    rewrite iter_xO. f_equal. f_equal. lia.
Qed.

Lemma of_int_R n :
  0 < n < 2 ^ 53 ->
  exists m e, float64_of_int64 n = S754_finite false m e
    /\ normalized m /\ -52 <= e <= 0 /\ val (Zpos m) e = IZR n.
Proof.
  intros Hn. destruct n as [|p|p]; try lia.
  unfold float64_of_int64, binary_normalize, binary_round.
  set (d := Zpos (digits2_pos p)).
  pose proof (digits2_bounds p) as Hb. fold d in Hb.
  assert (0 < d) by (unfold d; lia).
  assert (d <= 53) as Hd.
  { change d with (Zdigits2 (Zpos p)). apply digits_le; lia. }
  rewrite Z.add_0_r, fexp_normal by lia.
  destruct (shl_align_spec p 0 (d - 53) ltac:(lia)) as (mz & -> & Hmz).
  replace (0 - (d - 53)) with (53 - d) in Hmz by lia.
  assert (2 ^ 52 <= Zpos mz < 2 ^ 53) as Hnorm.
  { rewrite Hmz.
    assert (2 ^ 52 = 2 ^ (d - 1) * 2 ^ (53 - d)) as ->
      by (rewrite <- Z.pow_add_r by lia; f_equal; lia).
    assert (2 ^ 53 = 2 ^ d * 2 ^ (53 - d)) as ->
      by (rewrite <- Z.pow_add_r by lia; f_equal; lia).
    pose proof (Z.pow_pos_nonneg 2 (53 - d) ltac:(lia) ltac:(lia)). nia. }
  assert (Zdigits2 (Zpos mz) = 53) as Hdig by (apply digits_unique; [lia | exact Hnorm]).
  destruct (round_R false (Zpos mz) (d - 53) loc_Exact (Zpos mz) 1) as (m & e & -> & Hm & He & _ & Hex);
    try rewrite Hdig; try lia.
  - now rewrite Z.div_1_r.
  - cbn [describes]. apply Z.mod_1_r.
  - destruct (Hex (Zpos mz) (d - 53) Hnorm) as [Em Ee].
    { unfold val. rewrite Rdiv_1_r. reflexivity. }
    exists m, e. split; [reflexivity|]. split; [exact Hm|]. split; [lia|].
    rewrite Em, Ee, Hmz. unfold val. rewrite mult_IZR, <- bpow_IZR by lia.
    rewrite Rmult_assoc, <- bpow_add. replace (53 - d + (d - 53)) with 0 by lia.
    rewrite bpow_0. ring.
Qed.

Lemma new_location_describes X D :
  0 < D -> describes (new_location D (X mod D)) X D.
Proof.
  intros HD. pose proof (Z.mod_pos_bound X D HD) as B.
  unfold new_location, new_location_even, new_location_odd.
  destruct (Z.even D) eqn:Ev.
  - destruct (Z.eqb_spec (X mod D) 0) as [E0|E0]; [exact E0|].
    destruct (Z.compare_spec (2 * (X mod D)) D); cbn [describes]; lia.
  - destruct (Z.eqb_spec (X mod D) 0) as [E0|E0]; [exact E0|].
    assert (Z.odd D = true) as Hodd by (rewrite <- Z.negb_even, Ev; reflexivity).
    apply Z.odd_spec in Hodd. destruct Hodd as [c Hc].
    destruct (Z.compare_spec (2 * (X mod D) + 1) D); cbn [describes]; lia.
Qed.

Lemma div_R m1 e1 m2 e2 :
  normalized m1 -> normalized m2 ->
  -400 <= e1 <= 400 -> -400 <= e2 <= 400 ->
  exists m e,
    float64_div (S754_finite false m1 e1) (S754_finite false m2 e2)
    = S754_finite false m e
    /\ normalized m
    /\ e1 - e2 - 53 <= e <= e1 - e2 - 51
    /\ (Rabs (val (Zpos m) e - val (Zpos m1) e1 / val (Zpos m2) e2)
        <= u * (val (Zpos m1) e1 / val (Zpos m2) e2))%R
    /\ (forall m0 e0, 2 ^ 52 <= m0 < 2 ^ 53 ->
          (val (Zpos m1) e1 / val (Zpos m2) e2)%R = val m0 e0 ->
          Zpos m = m0 /\ e = e0).
Proof.
  intros N1 N2 He1 He2. unfold normalized in *.
  unfold float64_div, SFdiv, SFdiv_core_binary.
  rewrite (digits_unique (Zpos m1) 53), (digits_unique (Zpos m2) 53) by (simpl; lia).
  replace (53 + e1 - (53 + e2)) with (e1 - e2) by lia.
  rewrite fexp_normal by lia.
  replace (Z.min (e1 - e2 - 53) (e1 - e2)) with (e1 - e2 - 53) by lia.
  replace (e1 - e2 - (e1 - e2 - 53)) with 53 by lia.
  rewrite Z.shiftl_mul_pow2 by lia.
  set (X := Zpos m1 * 2 ^ 53). set (D := Zpos m2).
  assert (Z.div_eucl X D = (X / D, X mod D)) as ->.
  { unfold Z.div, Z.modulo. now destruct (Z.div_eucl X D). }
  assert (0 < X) as HX by (unfold X; lia).
  assert (0 < D) as HD by (unfold D; lia).
  pose proof (Z.div_mod X D ltac:(lia)) as EX.
  pose proof (Z.mod_pos_bound X D HD) as BX.
  assert (2 ^ 52 <= X / D) as Qlo.
  { apply Z.div_le_lower_bound; [lia|]. unfold X, D. nia. }
  assert (X / D < 2 ^ 54) as Qhi.
  { apply Z.div_lt_upper_bound; [lia|]. unfold X, D.
    change (2 ^ 54) with (2 * 2 ^ 53). nia. }
  assert (53 <= Zdigits2 (X / D)) as D1 by (apply digits_ge; simpl; lia).
  assert (Zdigits2 (X / D) <= 54) as D2 by (apply digits_le; lia).
  cbn [xorb].
  destruct (round_R false (X / D) (e1 - e2 - 53) (new_location D (X mod D)) X D)
    as (m & e & -> & Hm & He & Hnear & Hex); try lia.
  - now apply new_location_describes.
  - assert ((IZR X / IZR D * bpow (e1 - e2 - 53))%R
            = (val (Zpos m1) e1 / val (Zpos m2) e2)%R) as Ex.
    { unfold X, D, val. rewrite mult_IZR, <- (bpow_IZR 53) by lia.
      replace (e1 - e2 - 53) with (e1 + (- e2 + - 53)) by lia.
      rewrite !bpow_add.
      pose proof (bpow_pos e2). pose proof (bpow_pos 53).
      assert (bpow (- e2) = / bpow e2)%R as ->.
      { apply Rmult_eq_reg_r with (bpow e2); [|lra].
        rewrite <- bpow_add. replace (- e2 + e2) with 0 by lia. rewrite bpow_0.
        field. lra. }
      assert (bpow (- 53) = / bpow 53)%R as ->.
      { apply Rmult_eq_reg_r with (bpow 53); [|lra].
        rewrite <- bpow_add. change (-53 + 53) with 0. rewrite bpow_0. field. lra. }
      assert (0 < IZR (Zpos m2))%R by (apply IZR_lt; lia).
      field. lra. }
    rewrite Ex in Hnear, Hex.
    exists m, e. split; [reflexivity|]. split; [assumption|]. split; [lia|].
    split; assumption.
Qed.

Lemma mul_R m1 e1 m2 e2 :
  normalized m1 -> normalized m2 ->
  -400 <= e1 <= 400 -> -400 <= e2 <= 400 ->
  exists m e,
    float64_mul (S754_finite false m1 e1) (S754_finite false m2 e2)
    = S754_finite false m e
    /\ normalized m
    /\ e1 + e2 + 52 <= e <= e1 + e2 + 54
    /\ (Rabs (val (Zpos m) e - val (Zpos m1) e1 * val (Zpos m2) e2)
        <= u * (val (Zpos m1) e1 * val (Zpos m2) e2))%R
    /\ (forall m0 e0, 2 ^ 52 <= m0 < 2 ^ 53 ->
          (val (Zpos m1) e1 * val (Zpos m2) e2)%R = val m0 e0 ->
          Zpos m = m0 /\ e = e0).
Proof.
  intros N1 N2 He1 He2. unfold normalized in *.
  unfold float64_mul, SFmul. cbn [xorb].
  set (X := Zpos (m1 * m2)).
  assert (X = Zpos m1 * Zpos m2) as EX by (unfold X; lia).
  assert (2 ^ 104 <= X) as Xlo by (change (2 ^ 104) with (2 ^ 52 * 2 ^ 52); nia).
  assert (X < 2 ^ 106) as Xhi by (change (2 ^ 106) with (2 ^ 53 * 2 ^ 53); nia).
  assert (105 <= Zdigits2 X) as D1 by (apply digits_ge; simpl; lia).
  assert (Zdigits2 X <= 106) as D2 by (apply digits_le; lia).
  destruct (round_R false X (e1 + e2) loc_Exact X 1)
    as (m & e & -> & Hm & He & Hnear & Hex); try lia.
  - now rewrite Z.div_1_r.
  - cbn [describes]. apply Z.mod_1_r.
  - assert ((IZR X / IZR 1 * bpow (e1 + e2))%R
            = (val (Zpos m1) e1 * val (Zpos m2) e2)%R) as Ex.
    { rewrite EX. unfold val. rewrite mult_IZR, bpow_add, Rdiv_1_r. ring. }
    rewrite Ex in Hnear, Hex.
    exists m, e. split; [reflexivity|]. split; [assumption|]. split; [lia|].
    split; assumption.
Qed.

Lemma to_int_R conv m e :
  (val (Zpos m) e < IZR (2 ^ 63))%R ->
  (IZR (Go.float64_to_int64 conv (S754_finite false m e)) <= val (Zpos m) e
   < IZR (Go.float64_to_int64 conv (S754_finite false m e)) + 1)%R.
Proof.
  intros Hlt. unfold float64_to_int64.
  set (a := if 0 <=? e then Z.shiftl (Zpos m) e else Z.shiftr (Zpos m) (- e)).
  assert (0 <= a /\ (IZR a <= val (Zpos m) e < IZR a + 1)%R) as [Ha0 Ha].
  { unfold a, val. destruct (Z.leb_spec 0 e) as [He | He].
    - rewrite Z.shiftl_mul_pow2, bpow_IZR, <- mult_IZR by lia.
      pose proof (Z.pow_pos_nonneg 2 e ltac:(lia) He). split; [nia | lra].
    - rewrite Z.shiftr_div_pow2 by lia.
      pose proof (Z.pow_pos_nonneg 2 (- e) ltac:(lia) ltac:(lia)) as Hp.
      pose proof (Z.div_mod (Zpos m) (2 ^ (- e)) ltac:(lia)) as E.
      pose proof (Z.mod_pos_bound (Zpos m) (2 ^ (- e)) Hp) as B.
      assert (bpow e = / IZR (2 ^ (- e)))%R as ->.
      { rewrite <- bpow_IZR by lia. pose proof (bpow_pos (- e)).
        apply Rmult_eq_reg_r with (bpow (- e)); [|lra].
        rewrite <- bpow_add. replace (e + - e) with 0 by lia. rewrite bpow_0.
        field. lra. }
      assert (0 < IZR (2 ^ (- e)))%R as RP by (apply IZR_lt; assumption).
      split; [apply Z.div_pos; lia|].
      set (q := Zpos m / 2 ^ (- e)) in *.
      assert (IZR (Zpos m) = IZR (2 ^ (- e)) * IZR q + IZR (Zpos m mod 2 ^ (- e)))%R as ER
        by (rewrite <- mult_IZR, <- plus_IZR; f_equal; exact E).
      assert (0 <= IZR (Zpos m mod 2 ^ (- e)) < IZR (2 ^ (- e)))%R as BR
        by (split; [apply IZR_le | apply IZR_lt]; lia).
      rewrite ER. split.
      + apply Rmult_le_reg_r with (IZR (2 ^ (- e))); [assumption|].
        rewrite Rmult_assoc, Rinv_l by lra. nra.
      + apply Rmult_lt_reg_r with (IZR (2 ^ (- e))); [assumption|].
        rewrite Rmult_assoc, Rinv_l by lra. nra. }
  assert (a < 2 ^ 63) as Hr by (apply lt_IZR; lra).
  replace ((int64_min <=? a) && (a <=? int64_max)) with true; [exact Ha|].
  symmetry. apply andb_true_iff. unfold int64_min, int64_max.
  split; apply Z.leb_le; lia.
Qed.

Lemma hundred_float :
  float64_of_int64 100 = S754_finite false 7036874417766400 (-46)
  /\ normalized 7036874417766400
  /\ val (Zpos 7036874417766400) (-46) = 100%R.
Proof.
  split; [reflexivity|]. split; [unfold normalized; simpl; lia|].
  destruct (of_int_R 100 ltac:(simpl; lia)) as (m & e & E & _ & _ & Hv).
  change (float64_of_int64 100) with (S754_finite false 7036874417766400 (-46)) in E.
  injection E as <- <-. exact Hv.
Qed.

Lemma Rabs_bound (a c : R) : (Rabs a <= c)%R -> (- c <= a <= c)%R.
Proof. unfold Rabs. destruct (Rcase_abs a); lra. Qed.

Lemma u_small (A : R) :
  (0 <= A)%R -> (A <= IZR (2 ^ 52) - 1)%R -> (A * (2 * u + u * u) < 1)%R.
Proof.
  intros H0 HA. unfold u. change (2 ^ 53) with (2 * 2 ^ 52). rewrite mult_IZR.
  set (h := IZR (2 ^ 52)) in *.
  assert (1 <= h)%R as Hh by (apply IZR_le; simpl; lia).
  assert (0 < / (2 * h))%R by (apply Rinv_0_lt_compat; lra).
  assert (2 * h * / (2 * h) = 1)%R as Hi by (field; lra).
  set (v := (/ (IZR 2 * h))%R) in *. change (IZR 2) with 2%R in *.
  assert (A * (2 * v + v * v) <= (h - 1) * (2 * v + v * v))%R
    by (apply Rmult_le_compat_r; nra).
  assert ((h - 1) * (2 * v + v * v) < 1)%R; [|lra].
  assert (h * v = / 2)%R by nra.
  nra.
Qed.

End Float64Facts.


(** ** The two unit conversions *)
Module UnitClaims.
Import Go Resource Corev1 Apiext Deviceshare DeviceshareSpec Float64Spec Float64Facts.
Import ConvertFacts.

(** C5, as stated, fails: for 2 bytes of a total of 3, [memBytesToRatio]
    returns 66, the float64 value of 2/3*100 with its fraction cut off;
    the nearest whole unit of 200/3 is 67. *)
Lemma bytes_to_ratio_nearest_counterexample :
  Value (memBytesToRatio amd64_indefinite (quantity 2) (quantity 3)) = 66
  /\ ~ nearestPercent 66 2 3
  /\ nearestPercent 67 2 3.
Proof.
  split; [reflexivity|]. unfold nearestPercent. split; simpl; lia.
Qed.

(** C5, amended: [memBytesToRatio] computes b / T * 100 in float64 and cuts
    the fraction off (truncation, not rounding to nearest). For every
    b >= 0 and T with 0 < T < 2^53 and 100 * b < 2^52, the result is the
    floor of 100 * b / T whenever T does not divide 100 * b, and that
    quotient or one less when it does. *)
Theorem bytes_to_ratio_truncates convIndefinite bytes totalMemory :
  0 <= Value bytes ->
  0 < Value totalMemory < 2 ^ 53 ->
  100 * Value bytes < 2 ^ 52 ->
  100 * Value bytes / Value totalMemory - 1
    <= Value (memBytesToRatio convIndefinite bytes totalMemory)
    <= 100 * Value bytes / Value totalMemory
  /\ ((100 * Value bytes) mod Value totalMemory <> 0 ->
      Value (memBytesToRatio convIndefinite bytes totalMemory)
      = 100 * Value bytes / Value totalMemory).
Proof.
  destruct bytes as [b fb], totalMemory as [T fT]. cbn [Value].
  intros Hb HT Hsmall. unfold memBytesToRatio. cbn [Value].
  destruct (of_int_R T HT) as (mT & eT & -> & NT & HeT & VT).
  destruct hundred_float as (-> & NH & VH).
  destruct (Z.eq_dec b 0) as [-> | Hb0].
  - change (float64_of_int64 0) with (S754_zero false).
    unfold float64_div, float64_mul. cbn [SFdiv SFmul xorb float64_to_int64].
    rewrite Z.mul_0_r, Z.div_0_l, Z.mod_0_l by lia. lia.
  - destruct (of_int_R b ltac:(lia)) as (mb & eb & -> & Nb & Heb & Vb).
    destruct (div_R mb eb mT eT Nb NT ltac:(lia) ltac:(lia))
      as (mQ & eQ & -> & NQ & HeQ & HQ & _).
    destruct (mul_R mQ eQ 7036874417766400 (-46) NQ NH ltac:(lia) ltac:(lia))
      as (mP & eP & -> & NP & HeP & HP & _).
    rewrite Vb, VT in HQ. rewrite VH in HP.
    set (Q := val (Zpos mQ) eQ) in *. set (P := val (Zpos mP) eP) in *.
    set (B := IZR b) in *. set (Tr := IZR T) in *.
    assert (0 < Tr)%R as HTr by (apply IZR_lt; lia).
    assert (1 <= B)%R as HB by (apply IZR_le; lia).
    set (k := 100 * b / T). set (rho := (100 * b) mod T).
    pose proof (Z.div_mod (100 * b) T ltac:(lia)) as Ek. fold k rho in Ek.
    pose proof (Z.mod_pos_bound (100 * b) T ltac:(lia)) as Brho. fold rho in Brho.
    assert (100 * B = Tr * IZR k + IZR rho)%R as EkR.
    { unfold B, Tr. change 100%R with (IZR 100).
      rewrite <- !mult_IZR, <- plus_IZR. f_equal. exact Ek. }
    assert (0 <= IZR rho <= Tr - 1)%R as BrhoR.
    { unfold Tr. split; [apply IZR_le; lia|].
      change 1%R with (IZR 1). rewrite <- minus_IZR. apply IZR_le. lia. }
    assert (100 * B <= IZR (2 ^ 52) - 1)%R as HA.
    { unfold B. change 100%R with (IZR 100). change 1%R with (IZR 1).
      rewrite <- mult_IZR, <- minus_IZR. apply IZR_le. lia. }
    pose proof (u_small (100 * B)%R ltac:(lra) HA) as Hu.
    assert (0 < u)%R as Hupos by (unfold u; apply Rinv_0_lt_compat, IZR_lt; reflexivity).
    assert (u < 1)%R as Hu1.
    { unfold u. rewrite <- Rinv_1. apply Rinv_lt_contravar; [|apply IZR_lt; reflexivity].
      rewrite Rmult_1_l. apply IZR_lt. reflexivity. }
    set (x := (B / Tr)%R) in *.
    assert (0 < x)%R as Hx by (unfold x; apply Rdiv_lt_0_compat; lra).
    assert (x * Tr = B)%R as ExT by (unfold x; field; lra).
    apply Rabs_bound in HQ. apply Rabs_bound in HP.
    assert (0 < Q)%R as HQpos by nra.
    (* the product, scaled by the total *)
    assert (P * Tr <= 100 * B + 100 * B * (2 * u + u * u))%R as Pup.
    { assert (P <= Q * 100 * (1 + u))%R by lra.
      assert (Q <= x * (1 + u))%R by lra.
      assert (Q * 100 * (1 + u) <= x * (1 + u) * 100 * (1 + u))%R by nra.
      assert (P * Tr <= x * (1 + u) * 100 * (1 + u) * Tr)%R by nra.
      replace (x * (1 + u) * 100 * (1 + u) * Tr)%R
        with (100 * (x * Tr) * ((1 + u) * (1 + u)))%R in * by ring.
      rewrite ExT in *. lra. }
    assert (100 * B - 100 * B * (2 * u + u * u) <= P * Tr)%R as Plo.
    { assert (Q * 100 * (1 - u) <= P)%R by lra.
      assert (x * (1 - u) <= Q)%R by lra.
      assert (x * (1 - u) * 100 * (1 - u) <= Q * 100 * (1 - u))%R by nra.
      assert (x * (1 - u) * 100 * (1 - u) * Tr <= P * Tr)%R by nra.
      replace (x * (1 - u) * 100 * (1 - u) * Tr)%R
        with (100 * (x * Tr) * ((1 - u) * (1 - u)))%R in * by ring.
      rewrite ExT in *. nra. }
    assert (P < IZR k + 1)%R as Hlt.
    { apply Rmult_lt_reg_r with Tr; [assumption|]. nra. }
    assert (IZR k - 1 < P)%R as Hgt.
    { apply Rmult_lt_reg_r with Tr; [assumption|]. nra. }
    assert (P < IZR (2 ^ 63))%R as Hrange.
    { assert (IZR k < IZR (2 ^ 62))%R; [|change (2 ^ 63) with (2 ^ 62 + 2 ^ 62);
        rewrite plus_IZR; assert (1 <= IZR (2 ^ 62))%R by (apply IZR_le; simpl; lia); lra].
      apply IZR_lt. unfold k.
      assert (100 * b / T <= 100 * b) by (apply Z.div_le_upper_bound; nia).
      simpl in *. lia. }
    pose proof (to_int_R convIndefinite mP eP Hrange) as Hz. fold P in Hz.
    set (z := Go.float64_to_int64 convIndefinite (S754_finite false mP eP)) in *.
    assert (z <= k) as Hzk.
    { assert (z < k + 1); [|lia]. apply lt_IZR. rewrite plus_IZR. lra. }
    assert (k - 1 <= z) as Hkz.
    { assert (k - 1 < z + 1); [|lia]. apply lt_IZR. rewrite minus_IZR, plus_IZR. lra. }
    split; [lia|]. intros Hne.
    assert (IZR k < P)%R as Hgt'.
    { assert (1 <= IZR rho)%R by (apply IZR_le; lia).
      apply Rmult_lt_reg_r with Tr; [assumption|]. nra. }
    assert (k < z + 1); [|lia]. apply lt_IZR. rewrite plus_IZR. lra.
Qed.

Lemma bytes_to_ratio_truncates_witness :
  100 * 29 / 100 - 1
    <= Value (memBytesToRatio amd64_indefinite (quantity 29) (quantity 100))
    <= 100 * 29 / 100
  /\ ((100 * 29) mod 100 <> 0 ->
      Value (memBytesToRatio amd64_indefinite (quantity 29) (quantity 100))
      = 100 * 29 / 100).
Proof.
  apply (bytes_to_ratio_truncates amd64_indefinite (quantity 29) (quantity 100));
    simpl; lia.
Defined.

(** C6, as stated, fails: with a total memory of 2^53 + 3 bytes the ratio
    300 becomes 3 * (2^53 + 3) bytes, and these convert back to 299: the
    two byte counts are not float64 numbers, and the quotient of their
    roundings falls just below 3. *)
Lemma ratio_bytes_round_trip_counterexample :
  memRatioToBytes (quantity 300) (quantity 9007199254740995)
  = Ok (NewQuantity 27021597764222985 BinarySI)
  /\ memBytesToRatio amd64_indefinite (NewQuantity 27021597764222985 BinarySI)
       (quantity 9007199254740995)
     = quantity 299.
Proof.
  split; reflexivity.
Qed.

(** C6, amended: for every total memory T with 0 < T < 2^53 and every ratio
    r = 100 * k with k >= 0, r < 2^53 and k * T < 2^53 (so that T, the byte
    count and r are float64 numbers), [memRatioToBytes] returns
    floor (r * T / 100) bytes, and [memBytesToRatio] of these bytes against
    T is r again. *)
Theorem ratio_bytes_round_trip convIndefinite ratio totalMemory k :
  Value ratio = 100 * k -> 0 <= k ->
  0 < Value totalMemory < 2 ^ 53 ->
  k * Value totalMemory < 2 ^ 53 ->
  100 * k < 2 ^ 53 ->
  exists bytes,
    memRatioToBytes ratio totalMemory = Ok bytes
    /\ Value bytes = Value ratio * Value totalMemory / 100
    /\ memBytesToRatio convIndefinite bytes totalMemory
       = NewQuantity (Value ratio) DecimalSI.
Proof.
  destruct ratio as [r fr], totalMemory as [T fT]. cbn [Value].
  intros -> Hk HT HkT Hk100.
  assert (100 * k * T = k * T * 100) as Hprod by ring.
  exists (NewQuantity (k * T) BinarySI).
  split.
  { unfold memRatioToBytes, int64_mul, int64_div. cbn [Value mbind result_bind].
    rewrite (wrap64_id (100 * k * T))
      by (unfold in_int64, int64_min, int64_max; simpl in *; nia).
    change (100 =? 0) with false. cbv iota.
    rewrite Hprod, Z.quot_mul by lia.
    rewrite wrap64_id by (unfold in_int64, int64_min, int64_max; simpl in *; nia).
    reflexivity. }
  split.
  { cbn [Value]. rewrite Hprod. now rewrite Z.div_mul by lia. }
  unfold memBytesToRatio. cbn [Value]. f_equal.
  destruct (of_int_R T HT) as (mT & eT & -> & NT & HeT & VT).
  destruct hundred_float as (-> & NH & VH).
  destruct (Z.eq_dec k 0) as [-> | Hk0].
  - change (float64_of_int64 (0 * T)) with (S754_zero false).
    unfold float64_div, float64_mul. cbn [SFdiv SFmul xorb float64_to_int64]. lia.
  - destruct (of_int_R (k * T) ltac:(nia)) as (mb & eb & -> & Nb & Heb & Vb).
    destruct (of_int_R k ltac:(lia)) as (mk & ek & _ & Nk & Hek & Vk).
    destruct (of_int_R (100 * k) ltac:(lia)) as (mh & eh & _ & Nh & Heh & Vh).
    assert (0 < IZR T)%R as HTr by (apply IZR_lt; lia).
    destruct (div_R mb eb mT eT Nb NT ltac:(lia) ltac:(lia))
      as (mQ & eQ & -> & NQ & HeQ & _ & HexQ).
    destruct (HexQ (Zpos mk) ek Nk) as [EmQ EeQ].
    { rewrite Vb, VT, Vk, mult_IZR. field. lra. }
    injection EmQ as ->. subst eQ.
    destruct (mul_R mk ek 7036874417766400 (-46) Nk NH ltac:(lia) ltac:(lia))
      as (mP & eP & -> & NP & HeP & _ & HexP).
    destruct (HexP (Zpos mh) eh Nh) as [EmP EeP].
    { rewrite Vk, VH, Vh, mult_IZR. change (IZR 100) with 100%R. ring. }
    injection EmP as ->. subst eP.
    assert (val (Zpos mh) eh < IZR (2 ^ 63))%R as Hrange.
    { rewrite Vh. apply IZR_lt. simpl in *. lia. }
    pose proof (to_int_R convIndefinite mh eh Hrange) as Hz. rewrite Vh in Hz.
    set (z := Go.float64_to_int64 convIndefinite (S754_finite false mh eh)) in *.
    assert (z <= 100 * k) by (apply le_IZR; lra).
    assert (100 * k < z + 1) by (apply lt_IZR; rewrite plus_IZR; lra).
    lia.
Qed.

Lemma ratio_bytes_round_trip_witness :
  exists bytes,
    memRatioToBytes (quantity 200) (NewQuantity 4096 BinarySI) = Ok bytes
    /\ Value bytes = 200 * 4096 / 100
    /\ memBytesToRatio amd64_indefinite bytes (NewQuantity 4096 BinarySI)
       = NewQuantity 200 DecimalSI.
Proof.
  apply (ratio_bytes_round_trip amd64_indefinite (quantity 200)
           (NewQuantity 4096 BinarySI) 2); simpl; lia.
Defined.

End UnitClaims.


(** ** Reading the memory statistics *)
Module MeminfoFacts.
Import Meminfo.

Lemma append_nil (b : string) : "" +:+ b = b.
Proof. reflexivity. Qed.

Lemma append_cons c (a b : string) : String c a +:+ b = String c (a +:+ b).
Proof. reflexivity. Qed.

Lemma allChars_app P a b : allChars P (a +:+ b) = allChars P a && allChars P b.
Proof.
  induction a as [|c a IH]; rewrite ?append_nil, ?append_cons; cbn; [reflexivity|].
  now rewrite IH, andb_assoc.
Qed.

Lemma allChars_weaken (P Q : ascii -> bool) s :
  (forall c, P c = true -> Q c = true) -> allChars P s = true -> allChars Q s = true.
Proof.
  intros H. induction s as [|c s IH]; cbn; [reflexivity|].
  rewrite !andb_true_iff. intros [Hc Hs]. auto.
Qed.

Lemma splitOn_nonempty sep s : splitOn sep s <> [].
Proof.
  destruct s as [|c s]; cbn; [discriminate|].
  destruct (Ascii.eqb c sep); [discriminate|].
  destruct (splitOn sep s); discriminate.
Qed.

Lemma splitOn_none sep s : allChars (notChar sep) s = true -> splitOn sep s = [s].
Proof.
  induction s as [|c s IH]; cbn; [reflexivity|].
  unfold notChar at 1. rewrite andb_true_iff, negb_true_iff. intros [Hc Hs].
  now rewrite Hc, (IH Hs).
Qed.

Lemma splitOn_app sep a b :
  allChars (notChar sep) a = true ->
  splitOn sep (a +:+ String sep b) = a :: splitOn sep b.
Proof.
  induction a as [|c a IH]; rewrite ?append_nil, ?append_cons; cbn.
  - intros _. now rewrite Ascii.eqb_refl.
  - unfold notChar at 1. rewrite andb_true_iff, negb_true_iff. intros [Hc Hs].
    now rewrite Hc, (IH Hs).
Qed.

Lemma splitOn_unlines lines :
  Forall (fun l => allChars (notChar lf) l = true) lines ->
  splitOn lf (unlines lines) = lines ++ [EmptyString].
Proof.
  induction 1 as [|l lines Hl _ IH]; [reflexivity|].
  change (unlines (l :: lines)) with (l +:+ String lf (unlines lines)).
  now rewrite (splitOn_app lf l _ Hl), IH.
Qed.

Lemma trimRight_id s : allChars (fun c => negb (isSpace c)) s = true -> trimRight s = s.
Proof.
  induction s as [|c s IH]; cbn; [reflexivity|].
  rewrite andb_true_iff, negb_true_iff. intros [Hc Hs].
  rewrite (IH Hs), Hc. now destruct s.
Qed.

Lemma trimLeft_id s : allChars (fun c => negb (isSpace c)) s = true -> trimLeft s = s.
Proof.
  destruct s as [|c s]; cbn; [reflexivity|].
  rewrite andb_true_iff, negb_true_iff. intros [Hc _]. now rewrite Hc.
Qed.

Lemma trimRight_app a b :
  trimRight b <> EmptyString -> trimRight (a +:+ b) = a +:+ trimRight b.
Proof.
  intros Hb. induction a as [|c a IH]; rewrite ?append_nil, ?append_cons; [reflexivity|].
  cbn [trimRight]. rewrite IH. destruct (a +:+ trimRight b) eqn:E; [|reflexivity].
  destruct a; rewrite ?append_nil, ?append_cons in E; [contradiction | discriminate].
Qed.

Lemma trimLeft_spaces n s : trimLeft (spaces n +:+ s) = trimLeft s.
Proof.
  induction n as [|n IH]; cbn [spaces]; rewrite ?append_nil, ?append_cons;
    [reflexivity | exact IH].
Qed.

Lemma digits_of_uint d : allChars isDigit (NilEmpty.string_of_uint d) = true.
Proof. induction d; cbn; try reflexivity; exact IHd. Qed.

Lemma decimal_digits v : allChars isDigit (decimal v) = true.
Proof.
  unfold decimal, NilZero.string_of_uint.
  destruct (N.to_uint v); try reflexivity; apply digits_of_uint.
Qed.

Lemma decimal_nonempty v : decimal v <> EmptyString.
Proof.
  unfold decimal. destruct v as [|p]; [discriminate|]. cbn [N.to_uint].
  pose proof (DecimalPos.Unsigned.to_uint_nonnil p) as H.
  destruct (Pos.to_uint p); try contradiction; discriminate.
Qed.

Lemma digit_facts c :
  isDigit c = true ->
  isSpace c = false /\ notChar ":" c = true /\ notChar lf c = true
  /\ Ascii.eqb c " " = false.
Proof.
  unfold isDigit. cbn [existsb]. rewrite !orb_true_iff.
  intros H. repeat destruct H as [H|H]; try discriminate;
    apply Ascii.eqb_eq in H; subst c; repeat split; reflexivity.
Qed.

Lemma removeUnit_digits a b :
  allChars isDigit a = true -> removeUnit 0 (a +:+ b) = a +:+ removeUnit 0 b.
Proof.
  induction a as [|c a IH]; [reflexivity|].
  cbn [allChars]. rewrite andb_true_iff. intros [Hc Ha].
  destruct (digit_facts c Hc) as (_ & _ & _ & Hsp).
  rewrite append_cons. cbn [removeUnit].
  assert (String.prefix " kB" (String c (a +:+ b)) = false) as ->.
  { cbn [String.prefix]. rewrite Ascii.eqb_sym in Hsp.
    destruct (Ascii.ascii_dec " " c) as [E|E]; [|reflexivity].
    subst c. discriminate. }
  now rewrite (IH Ha).
Qed.

Lemma ParseUint_decimal v : (v < 2 ^ 64)%N -> ParseUint (decimal v) = Some v.
Proof.
  intros Hv. unfold ParseUint, decimal.
  rewrite NilZero.usu.
  - rewrite DecimalN.Unsigned.of_to.
    now apply N.ltb_lt in Hv as ->.
  - destruct v as [|p]; [discriminate | apply DecimalPos.Unsigned.to_uint_nonnil].
Qed.

Lemma append_empty_r (s : string) : s +:+ "" = s.
Proof. induction s as [|c s IH]; rewrite ?append_nil, ?append_cons; [reflexivity | now rewrite IH]. Qed.

Lemma spaces_text n : allChars (notChar ":") (spaces n) = true.
Proof. induction n; [reflexivity | exact IHn]. Qed.

Lemma spaces_no_lf n : allChars (notChar lf) (spaces n) = true.
Proof. induction n; [reflexivity | exact IHn]. Qed.

Lemma keyChar_facts c :
  keyChar c = true ->
  notChar ":" c = true /\ negb (isSpace c) = true /\ notChar lf c = true.
Proof.
  unfold keyChar. rewrite andb_true_iff. intros [H1 H2]. repeat split; try assumption.
  unfold notChar. apply negb_true_iff. apply negb_true_iff in H2.
  destruct (Ascii.eqb_spec c lf) as [->|]; [discriminate | reflexivity].
Qed.

Lemma valueSide_chars sep pad v unit :
  (forall c, isDigit c = true -> notChar sep c = true) ->
  allChars (notChar sep) (spaces pad) = true ->
  allChars (notChar sep) " kB" = true ->
  allChars (notChar sep) (valueSide pad v unit) = true.
Proof.
  intros Hd Hs Hu. unfold valueSide. rewrite !allChars_app, Hs.
  rewrite (allChars_weaken isDigit _ _ Hd (decimal_digits v)).
  destruct unit; [rewrite Hu | ]; reflexivity.
Qed.

Lemma valueSide_read pad v unit :
  (v < 2 ^ 64)%N ->
  ParseUint (removeUnit 0 (TrimSpace (valueSide pad v unit))) = Some v.
Proof.
  intros Hv. unfold TrimSpace, valueSide. rewrite trimLeft_spaces.
  pose proof (decimal_digits v) as Hd. pose proof (decimal_nonempty v) as Hn.
  assert (allChars (fun c => negb (isSpace c)) (decimal v) = true) as Hns.
  { apply (allChars_weaken isDigit); [|exact Hd].
    intros c Hc. destruct (digit_facts c Hc) as (-> & _). reflexivity. }
  assert (trimLeft (decimal v +:+ (if unit then " kB" else ""))
          = decimal v +:+ (if unit then " kB" else "")) as ->.
  { destruct (decimal v) as [|c s] eqn:E; [contradiction|].
    rewrite append_cons. cbn [trimLeft].
    cbn [allChars] in Hns. apply andb_true_iff in Hns as [Hc _].
    apply negb_true_iff in Hc. now rewrite Hc. }
  assert (trimRight (decimal v +:+ (if unit then " kB" else ""))
          = decimal v +:+ (if unit then " kB" else "")) as ->.
  { destruct unit.
    - rewrite trimRight_app; [reflexivity | discriminate].
    - rewrite append_empty_r. now apply trimRight_id. }
  rewrite (removeUnit_digits _ _ Hd).
  assert (removeUnit 0 (if unit then " kB" else "") = "") as ->
    by (destruct unit; reflexivity).
  rewrite append_empty_r. now apply ParseUint_decimal.
Qed.

Lemma key_trim key : allChars keyChar key = true -> TrimSpace key = key.
Proof.
  intros Hk.
  assert (allChars (fun c => negb (isSpace c)) key = true) as Hns.
  { apply (allChars_weaken keyChar); [|exact Hk]. intros c Hc. apply keyChar_facts, Hc. }
  unfold TrimSpace. rewrite (trimLeft_id _ Hns). now apply trimRight_id.
Qed.

Lemma key_split key rest :
  allChars keyChar key = true -> allChars (notChar ":") rest = true ->
  splitOn ":" (key +:+ String ":" rest) = [key; rest].
Proof.
  intros Hk Hr. rewrite splitOn_app, (splitOn_none _ _ Hr); [reflexivity|].
  apply (allChars_weaken keyChar); [|exact Hk]. intros c Hc. apply keyChar_facts, Hc.
Qed.

Lemma parseLine_render info e :
  wellFormed e -> parseLine info (renderEntry e) = assignEntry info e.
Proof.
  destruct e as [key pad v unit | key text]; cbn [wellFormed renderEntry assignEntry].
  - intros [Hk Hv]. unfold parseLine.
    rewrite key_split; [| exact Hk |].
    + rewrite (valueSide_read pad v unit Hv), (key_trim key Hk). reflexivity.
    + apply valueSide_chars; [| apply spaces_text | reflexivity].
      intros c Hc. apply digit_facts, Hc.
  - intros (Hk & Ht & Hp). unfold parseLine.
    rewrite key_split; [| exact Hk |].
    + now rewrite Hp.
    + apply (allChars_weaken textChar); [|exact Ht].
      intros c Hc. unfold textChar in Hc. now apply andb_true_iff in Hc as [-> _].
Qed.

Lemma render_no_lf e : wellFormed e -> allChars (notChar lf) (renderEntry e) = true.
Proof.
  assert (forall key, allChars keyChar key = true -> allChars (notChar lf) key = true) as Hkey.
  { intros key. apply allChars_weaken. intros c Hc. apply keyChar_facts, Hc. }
  destruct e as [key pad v unit | key text]; cbn [wellFormed renderEntry].
  - intros [Hk Hv].
    rewrite allChars_app, (Hkey key Hk). cbn [allChars andb].
    apply andb_true_iff. split; [reflexivity|].
    apply valueSide_chars; [| apply spaces_no_lf | reflexivity].
    intros c Hc. apply digit_facts, Hc.
  - intros (Hk & Ht & _).
    rewrite allChars_app, (Hkey key Hk). cbn [allChars andb].
    apply andb_true_iff. split; [reflexivity|].
    apply (allChars_weaken textChar); [|exact Ht].
    intros c Hc. unfold textChar in Hc. now apply andb_true_iff in Hc as [_ ->].
Qed.

Lemma fold_parse_render entries : forall info,
  Forall wellFormed entries ->
  fold_left parseLine (map renderEntry entries) info = fold_left assignEntry entries info.
Proof.
  induction entries as [|e entries IH]; intros info H; [reflexivity|].
  inversion H as [|? ? He Hes]; subst. cbn [map fold_left].
  rewrite (parseLine_render info e He). now apply IH.
Qed.

Lemma read_rendered entries :
  Forall wellFormed entries ->
  readMemInfo (Some (unlines (map renderEntry entries))) = inl (recordOf entries).
Proof.
  intros H. unfold readMemInfo, recordOf. f_equal.
  rewrite splitOn_unlines.
  - rewrite fold_left_app. cbn [fold_left]. rewrite (fold_parse_render entries _ H).
    reflexivity.
  - induction H as [|e entries He _ IH]; constructor; [now apply render_no_lf | exact IH].
Qed.

Lemma fieldKeys_nodup : NoDup (map snd fieldKeys).
Proof. apply (bool_decide_unpack _). vm_compute. exact I. Qed.

Lemma find_key_in (key : string) (l : list (string * Field)) kf :
  find (fun kf => String.eqb key (fst kf)) l = Some kf -> In kf l /\ fst kf = key.
Proof.
  induction l as [|x l IH]; cbn [find]; [discriminate|].
  destruct (String.eqb_spec key (fst x)) as [E|E].
  - intros [= <-]. split; [now left | now symmetry].
  - intros H. destruct (IH H). split; [now right | assumption].
Qed.

Lemma nodup_snd_inj (l : list (string * Field)) a b :
  NoDup (map snd l) -> In a l -> In b l -> snd a = snd b -> a = b.
Proof.
  induction l as [|x l IH]; cbn [map]; intros Hnd Ha Hb E; [destruct Ha|].
  inversion Hnd as [|? ? Hx Hl]; subst.
  assert (forall y, In y l -> snd y = snd x -> False) as Hfresh.
  { intros y Hy Ey. apply Hx. rewrite <- Ey. apply list_elem_of_In. now apply in_map. }
  destruct Ha as [<-|Ha], Hb as [<-|Hb]; try reflexivity.
  - exfalso. now apply (Hfresh b).
  - exfalso. now apply (Hfresh a).
  - now apply IH.
Qed.

(** Two keys of one field are the same key. *)
Lemma keyField_inj k1 k2 f : keyField k1 = Some f -> keyField k2 = Some f -> k1 = k2.
Proof.
  unfold keyField.
  destruct (find _ fieldKeys) as [kf1|] eqn:E1; [|discriminate].
  destruct (find (fun kf => String.eqb k2 (fst kf)) fieldKeys) as [kf2|] eqn:E2;
    [|discriminate].
  intros [= H1] [= H2].
  destruct (find_key_in _ _ _ E1) as [I1 <-], (find_key_in _ _ _ E2) as [I2 <-].
  f_equal. apply (nodup_snd_inj fieldKeys); try assumption;
    [apply fieldKeys_nodup | congruence].
Qed.

Lemma setField_eq f t info : setField f t info f = t.
Proof. unfold setField. now destruct (decide (f = f)). Qed.

Lemma setField_ne f g t info : f <> g -> setField f t info g = info g.
Proof. intros H. unfold setField. now destruct (decide (f = g)). Qed.

(** Entries of other fields leave a field as it is. *)
Lemma fold_assign_other entries f : forall info,
  (forall e, In e entries -> keyField (entryKey e) <> Some f) ->
  fold_left assignEntry entries info f = info f.
Proof.
  induction entries as [|e entries IH]; intros info H; [reflexivity|].
  cbn [fold_left]. rewrite IH by (intros e' He'; apply H; now right).
  pose proof (H e ltac:(now left)) as He.
  destruct e as [key pad v unit | key text]; cbn [assignEntry entryKey] in *; [|reflexivity].
  destruct (keyField key) as [g|]; [|reflexivity].
  apply setField_ne. congruence.
Qed.

(** With one line for each key, a field holds the value of its line. *)
Lemma recordOf_exact entries e f :
  NoDup (map entryKey entries) -> In e entries ->
  keyField (entryKey e) = Some f -> recordOf entries f = entryValue e.
Proof.
  intros Hnd Hin Hf.
  destruct (in_split _ _ Hin) as (pre & post & ->).
  rewrite map_app in Hnd. cbn [map] in Hnd.
  apply NoDup_app in Hnd as (Hpre & Hdisj & Hpost).
  apply NoDup_cons in Hpost as [Hfresh _].
  assert (forall e', In e' pre -> keyField (entryKey e') <> Some f) as Opre.
  { intros e' He' Hf'. apply (Hdisj (entryKey e')).
    - apply list_elem_of_In. now apply in_map.
    - rewrite (keyField_inj _ _ _ Hf' Hf). now left. }
  assert (forall e', In e' post -> keyField (entryKey e') <> Some f) as Opost.
  { intros e' He' Hf'. apply Hfresh.
    rewrite <- (keyField_inj _ _ _ Hf' Hf). apply list_elem_of_In. now apply in_map. }
  unfold recordOf. rewrite fold_left_app. cbn [fold_left].
  rewrite (fold_assign_other post f _ Opost).
  destruct e as [key pad v unit | key text]; cbn [assignEntry entryKey entryValue] in *.
  - rewrite Hf. apply setField_eq.
  - now rewrite (fold_assign_other pre f _ Opre).
Qed.

End MeminfoFacts.

Module MeminfoClaims.
Import Meminfo MeminfoFacts.

(** The cases of [Test_readMemInfo]: a path that cannot be read, the
    well-formed file, and the file whose [Cached] line holds no number. *)
Example Test_readMemInfo_illegal : readMemInfo None = inr ErrReadFile.
Proof. reflexivity. Qed.

Example Test_readMemInfo_meminfo :
  exists got, readMemInfo (Some (unlines memInfoLines)) = inl got
              /\ map got allFields = map wantMemInfo allFields.
Proof. eexists. split; [reflexivity | vm_compute; reflexivity]. Qed.

Example Test_readMemInfo_meminfo1 :
  exists got, readMemInfo (Some (unlines memInfoLines1)) = inl got
              /\ map got allFields = map wantMemInfo1 allFields.
Proof. eexists. split; [reflexivity | vm_compute; reflexivity]. Qed.

(** C8, as stated, fails: the second file of the test has the line
    [Cached: invalidField kB], and reading it gives no error but a record
    whose [Cached] is 0, as the test expects. *)
Lemma read_meminfo_parse_error_counterexample :
  In "Cached:          invalidField kB" memInfoLines1
  /\ exists got, readMemInfo (Some (unlines memInfoLines1)) = inl got
                 /\ got Cached = 0%N /\ got MemTotal = 263432804%N.
Proof.
  split; [cbn; tauto|].
  eexists. split; [reflexivity | split; vm_compute; reflexivity].
Qed.

(** C8, amended: [readMemInfo] fails when the file cannot be read and
    never on a file it can read; a line whose value is not a number is
    passed over, so that its field stays 0. For a well-formed file with one
    line for each key the record holds, for every field, the exact number
    of its line. *)
Theorem read_meminfo_contract :
  readMemInfo None = inr ErrReadFile
  /\ (forall data, exists info, readMemInfo (Some data) = inl info)
  /\ (forall entries,
        Forall wellFormed entries -> NoDup (map entryKey entries) ->
        exists info,
          readMemInfo (Some (unlines (map renderEntry entries))) = inl info
          /\ forall e f, In e entries -> keyField (entryKey e) = Some f ->
                         info f = entryValue e).
Proof.
  split; [reflexivity|]. split.
  - intros data. eexists. reflexivity.
  - intros entries Hwf Hnd. exists (recordOf entries).
    split; [now apply read_rendered|].
    intros e f Hin Hf. now apply recordOf_exact.
Qed.

Lemma read_meminfo_contract_witness :
  exists info,
    readMemInfo (Some (unlines (map renderEntry threeLines))) = inl info
    /\ forall e f, In e threeLines -> keyField (entryKey e) = Some f ->
                   info f = entryValue e.
Proof.
  apply (proj2 (proj2 read_meminfo_contract) threeLines).
  - repeat constructor; vm_compute; reflexivity.
  - apply (bool_decide_unpack _). vm_compute. exact I.
Defined.

End MeminfoClaims.

(** ** Further properties of the device-share helpers and the reserve pod *)
Module HelperFacts.
Import Resource Corev1 Apiext Deviceshare DeviceshareSpec DeviceshareHelpers.
Import ValidateFacts ConvertFacts.

Lemma rl_empty_spec (rl : ResourceList) :
  rl_empty rl = true <-> rl = None \/ rl = Some ∅.
Proof.
  destruct rl as [m|]; cbn; [|tauto].
  rewrite Z.eqb_eq. split.
  - intros H. right. f_equal. apply map_size_empty_iff. lia.
  - intros [H|H]; [discriminate|]. injection H as ->. now rewrite map_size_empty.
Qed.

(** A request that validates has passed the three value checks. *)
Lemma validate_ok_quantities podRequest mask :
  ValidateGPURequest podRequest = (mask, None) -> gpuQuantitiesOK podRequest.
Proof.
  unfold ValidateGPURequest, gpuQuantitiesOK.
  destruct (rl_empty podRequest); [discriminate|].
  intros H name q Hin Hget. apply badRatio_false.
  destruct (badRatio (Value q)) eqn:Hbad; [exfalso | reflexivity].
  destruct Hin as [<-|[<-|[<-|[]]]]; rewrite ?Hget in H;
    destruct (rl_get podRequest ResourceNvidiaGPU) as [q1|];
    destruct (rl_get podRequest ResourceGPU) as [q2|];
    destruct (rl_get podRequest ResourceGPUCore) as [q3|];
    destruct (rl_get podRequest ResourceGPUMemory) as [q4|];
    destruct (rl_get podRequest ResourceGPUMemoryRatio) as [q5|];
    cbn [run mbind early_bind] in H;
    try discriminate Hget;
    repeat match goal with
           | E : Some _ = Some _ |- _ => injection E as ->
           end;
    rewrite ?Hbad in H; cbn [run mbind early_bind] in H;
    repeat match type of H with
           | context [badRatio (Value ?x)] =>
               destruct (badRatio (Value x)) eqn:?; cbn [run mbind early_bind] in H
           end;
    congruence.
Qed.


Lemma has_gpu_presence podRequest :
  rl_empty podRequest = false ->
  hasDeviceResource podRequest GPU = negb (presenceMask podRequest =? 0).
Proof.
  intros Hne. unfold hasDeviceResource, presenceMask, gpuBits. rewrite Hne.
  cbn [DeviceResourceNames existsb fold_right fst snd].
  destruct (rl_has podRequest ResourceNvidiaGPU), (rl_has podRequest ResourceGPU),
    (rl_has podRequest ResourceGPUCore), (rl_has podRequest ResourceGPUMemory),
    (rl_has podRequest ResourceGPUMemoryRatio); reflexivity.
Qed.

End HelperFacts.

Module ValidateExtras.
Import Resource Corev1 Apiext Deviceshare DeviceshareSpec DeviceshareHelpers.
Import ValidateFacts ConvertFacts HelperFacts.

(** X1: Both validators answer with the empty-request error exactly on the
    [nil] map and on the map without entries, whatever the device type. *)
Theorem empty_request_error podRequest :
  (snd (ValidateGPURequest podRequest) = Some ErrEmptyRequest
   <-> podRequest = None \/ podRequest = Some ∅)
  /\ (forall t, validateCommonDeviceRequest podRequest t = Some ErrEmptyRequest
                <-> podRequest = None \/ podRequest = Some ∅).
Proof.
  split; [|intros t]; (etransitivity; [|apply rl_empty_spec]).
  - destruct (rl_empty podRequest) eqn:Hne.
    + unfold ValidateGPURequest. rewrite Hne. split; intros _; reflexivity.
    + split; [|discriminate]. intros H.
      unfold ValidateGPURequest in H. rewrite Hne in H.
      destruct (rl_get podRequest ResourceNvidiaGPU) as [q1|];
        destruct (rl_get podRequest ResourceGPU) as [q2|];
        destruct (rl_get podRequest ResourceGPUCore) as [q3|];
        destruct (rl_get podRequest ResourceGPUMemory) as [q4|];
        destruct (rl_get podRequest ResourceGPUMemoryRatio) as [q5|];
        cbn [run mbind early_bind] in H;
        repeat match type of H with
               | context [badRatio (Value ?x)] =>
                   destruct (badRatio (Value x)); cbn [run mbind early_bind snd] in H
               end;
        cbn in H; discriminate.
  - unfold validateCommonDeviceRequest.
    destruct (rl_empty podRequest); [split; intros _; reflexivity|].
    split; [|discriminate].
    destruct t; try discriminate;
      match goal with
      | |- context [badRatio ?v] => destruct (badRatio v); discriminate
      end.
Qed.

(** X2: [validateCommonDeviceRequest] succeeds exactly when the device type
    is RDMA or FPGA, the request is not empty and the value under the
    device's name, 0 when the name is missing, is at most 100 or a
    multiple of 100: a request that does not name the device validates,
    and the GPU type never does. *)
Theorem validate_common_iff podRequest t :
  validateCommonDeviceRequest podRequest t = None
  <-> t <> GPU /\ rl_empty podRequest = false
      /\ ratioOK (Value (rl_index podRequest (commonDeviceName t))).
Proof.
  unfold validateCommonDeviceRequest.
  destruct (rl_empty podRequest);
    [split; [discriminate | intros (_ & ? & _); discriminate]|].
  rewrite <- badRatio_false.
  destruct t; cbn [commonDeviceName];
    [split; [discriminate | intros (? & _); congruence] | |];
    match goal with
    | |- context [badRatio ?v] => destruct (badRatio v)
    end; split; try discriminate; try (intros (_ & _ & ?); discriminate);
    intros _; repeat split; discriminate.
Qed.

(** X3: The mask returned, with or without an error, only has bits of names
    that are present, and lies in [0, 32). *)
Theorem validate_mask_within_presence podRequest :
  Z.land (fst (ValidateGPURequest podRequest)) (presenceMask podRequest)
  = fst (ValidateGPURequest podRequest)
  /\ 0 <= fst (ValidateGPURequest podRequest) < 32.
Proof.
  unfold presenceMask, gpuBits, rl_has; cbn [fold_right fst snd].
  unfold ValidateGPURequest.
  destruct (rl_empty podRequest); [cbn; rewrite Z.land_0_l; lia|].
  destruct (rl_get podRequest ResourceNvidiaGPU) as [q1|];
    destruct (rl_get podRequest ResourceGPU) as [q2|];
    destruct (rl_get podRequest ResourceGPUCore) as [q3|];
    destruct (rl_get podRequest ResourceGPUMemory) as [q4|];
    destruct (rl_get podRequest ResourceGPUMemoryRatio) as [q5|];
    cbn [run mbind early_bind];
    repeat match goal with
           | |- context [badRatio (Value ?x)] =>
               destruct (badRatio (Value x)); cbn [run mbind early_bind]
           end;
    (split; [reflexivity | vm_compute; split; congruence]).
Qed.

(** X4: [hasDeviceResource] finds no GPU name in the request exactly when
    [ValidateGPURequest] answers with the mask 0 and either the
    empty-request error or the invalid-combination error that has no name
    to report; so a request that validates holds a GPU name. *)
Theorem validate_without_gpu_name podRequest :
  hasDeviceResource podRequest GPU = false
  <-> ValidateGPURequest podRequest = (0, Some ErrEmptyRequest)
      \/ ValidateGPURequest podRequest = (0, Some (ErrInvalidCombination ∅)).
Proof.
  unfold hasDeviceResource, ValidateGPURequest.
  destruct (rl_empty podRequest) eqn:Hne; [split; [now left | reflexivity]|].
  split.
  - intros Hhas. cbn [DeviceResourceNames existsb] in Hhas.
    repeat (apply orb_false_iff in Hhas as [? Hhas]).
    assert (maskedResourceNames podRequest (DeviceResourceNames GPU) = ∅) as Hnames.
    { unfold maskedResourceNames. cbn [DeviceResourceNames].
      repeat (rewrite filter_cons_False by congruence). reflexivity. }
    right. rewrite Hnames. unfold rl_has in *.
    destruct (rl_get podRequest ResourceNvidiaGPU) as [q1|]; [discriminate|].
    destruct (rl_get podRequest ResourceGPU) as [q2|]; [discriminate|].
    destruct (rl_get podRequest ResourceGPUCore) as [q3|]; [discriminate|].
    destruct (rl_get podRequest ResourceGPUMemory) as [q4|]; [discriminate|].
    destruct (rl_get podRequest ResourceGPUMemoryRatio) as [q5|]; [discriminate|].
    reflexivity.
  - intros H.
    assert (fst (ValidateGPURequest podRequest) = 0) as Hfst
      by (unfold ValidateGPURequest; rewrite Hne;
          destruct H as [-> | ->]; reflexivity).
    assert (~ isInvalidQuantity (snd (ValidateGPURequest podRequest))) as Hsnd
      by (unfold ValidateGPURequest; rewrite Hne;
          destruct H as [-> | ->]; intros (? & ? & [=])).
    clear H. revert Hfst Hsnd. unfold ValidateGPURequest. rewrite Hne.
    cbn [DeviceResourceNames existsb]. unfold rl_has.
    destruct (rl_get podRequest ResourceNvidiaGPU) as [q1|];
      destruct (rl_get podRequest ResourceGPU) as [q2|];
      destruct (rl_get podRequest ResourceGPUCore) as [q3|];
      destruct (rl_get podRequest ResourceGPUMemory) as [q4|];
      destruct (rl_get podRequest ResourceGPUMemoryRatio) as [q5|];
      cbn [run mbind early_bind];
      repeat match goal with
             | |- context [badRatio (Value ?x)] =>
                 destruct (badRatio (Value x)); cbn [run mbind early_bind]
             end;
      try reflexivity;
      repeat match goal with
             | |- context [if ?c then _ else _] =>
                 let v := eval vm_compute in c in change c with v; cbv iota
             end;
      cbn [fst snd]; intros Hfst Hsnd;
      try (vm_compute in Hfst; discriminate Hfst);
      exfalso; apply Hsnd; eexists _, _; reflexivity.
Qed.

End ValidateExtras.

Module ConvertExtraFacts.
Import Resource Corev1 Apiext Deviceshare DeviceshareSpec DeviceshareHelpers ConvertSpec.
Import ValidateFacts ConvertFacts HelperFacts.

Lemma validCombination_cases mask :
  validCombination mask ->
  mask = 1 \/ mask = 2 \/ mask = 12 \/ mask = 20.
Proof. exact (fun H => H). Qed.

(** The four shapes of the request [ConvertGPUResource] returns. *)
Lemma convert_shape podRequest mask :
  rl_empty podRequest = false -> validCombination mask ->
  exists a b,
    (ConvertGPUResource podRequest mask
     = Some {[ ResourceGPUCore := a; ResourceGPUMemory := b ]}
     /\ mask = Z.lor GPUCoreExist GPUMemoryExist
     /\ a = rl_index podRequest ResourceGPUCore
     /\ b = rl_index podRequest ResourceGPUMemory)
    \/ (ConvertGPUResource podRequest mask
        = Some {[ ResourceGPUCore := a; ResourceGPUMemoryRatio := b ]}
        /\ mask <> Z.lor GPUCoreExist GPUMemoryExist
        /\ (mask = Z.lor GPUCoreExist GPUMemoryRatioExist ->
            a = rl_index podRequest ResourceGPUCore
            /\ b = rl_index podRequest ResourceGPUMemoryRatio)
        /\ (mask = KoordGPUExist ->
            a = rl_index podRequest ResourceGPU /\ b = a)
        /\ (mask = NvidiaGPUExist ->
            a = NewQuantity (Go.int64_mul (Value (rl_index podRequest ResourceNvidiaGPU)) 100)
                  DecimalSI
            /\ b = a)).
Proof.
  intros Hne Hv. unfold ConvertGPUResource. rewrite Hne.
  destruct Hv as [-> | [-> | [-> | ->]]].
  - eexists _, _. right. split; [reflexivity|]. split; [discriminate|].
    repeat split; try discriminate.
  - eexists _, _. right. split; [reflexivity|]. split; [discriminate|].
    repeat split; try discriminate.
  - eexists _, _. left. repeat split.
  - eexists _, _. right. split; [reflexivity|]. split; [discriminate|].
    repeat split; try discriminate.
Qed.


Lemma fill_nil convIndefinite activeMinor nodeDeviceTotal :
  fillGPUTotalMem convIndefinite activeMinor nodeDeviceTotal None
  = Go.Panic Go.NilMapWrite.
Proof.
  unfold fillGPUTotalMem, memRatioToBytes, Go.int64_div. cbn. reflexivity.
Qed.

Lemma memRatioToBytes_total ratio totalMemory :
  memRatioToBytes ratio totalMemory
  = Go.Ok (NewQuantity
             (Go.wrap64 (Z.quot (Go.int64_mul (Value ratio) (Value totalMemory)) 100))
             BinarySI).
Proof. reflexivity. Qed.

End ConvertExtraFacts.

Module ConvertExtras.
Import Resource Corev1 Apiext Deviceshare DeviceshareSpec DeviceshareHelpers ConvertSpec.
Import ValidateFacts ConvertFacts HelperFacts ConvertExtraFacts.

(** X5: [ConvertGPUResource] returns [nil] exactly when the request is empty or
    the mask is none of the four whitelisted ones. *)
Theorem convert_nil_iff podRequest mask :
  ConvertGPUResource podRequest mask = None
  <-> rl_empty podRequest = true \/ ~ validCombination mask.
Proof.
  destruct (rl_empty podRequest) eqn:Hne.
  - unfold ConvertGPUResource. rewrite Hne. tauto.
  - destruct (validCombination_dec mask) as [Hv | Hv].
    + destruct (convert_shape _ _ Hne Hv) as (a & b & [(-> & _) | (-> & _)]);
        split; try discriminate; intros [? | ?]; [discriminate | contradiction |
                                                  discriminate | contradiction].
    + split; [right; assumption | intros _].
      unfold ConvertGPUResource, validCombination in *. rewrite Hne.
      destruct (Z.eqb_spec mask (Z.lor GPUCoreExist GPUMemoryExist)); [tauto|].
      destruct (Z.eqb_spec mask (Z.lor GPUCoreExist GPUMemoryRatioExist)); [tauto|].
      destruct (Z.eqb_spec mask KoordGPUExist); [tauto|].
      destruct (Z.eqb_spec mask NvidiaGPUExist); [tauto|]. reflexivity.
Qed.

(** X6: The request made of a validated one holds a core-share and holds
    nothing but core-share, memory bytes and memory-ratio: whole-device
    names and the resources of no device are left behind. *)
Theorem convert_keeps_canonical_names podRequest mask :
  ValidateGPURequest podRequest = (mask, None) ->
  exists canonical,
    ConvertGPUResource podRequest mask = Some canonical
    /\ is_Some (canonical !! ResourceGPUCore)
    /\ size canonical = 2%nat
    /\ forall name, is_Some (canonical !! name) -> In name patchedNames.
Proof.
  intros Hv. destruct (validate_ok _ _ Hv) as (Hne & _ & Hvalid).
  assert (forall (a b : Quantity) (k2 name : string),
            k2 = ResourceGPUMemory \/ k2 = ResourceGPUMemoryRatio ->
            is_Some (({[ ResourceGPUCore := a; k2 := b ]} : gmap string Quantity) !! name) ->
            In name patchedNames) as Hdom.
  { intros a b k2 name Hk2 [q Hq].
    destruct (decide (name = ResourceGPUCore)) as [->|N1]; [simpl; tauto|].
    rewrite lookup_insert_ne in Hq by congruence.
    destruct (decide (name = k2)) as [->|N2];
      [destruct Hk2 as [-> | ->]; simpl; tauto|].
    rewrite lookup_singleton_ne in Hq by congruence. discriminate. }
  destruct (convert_shape _ _ Hne Hvalid) as (a & b & [(-> & _) | (-> & _)]);
    eexists; (split; [reflexivity|]); (split; [rewrite lookup_insert_eq; eauto|]);
    (split; [reflexivity|]); intros name; apply Hdom; tauto.
Qed.

Lemma convert_keeps_canonical_names_witness :
  exists canonical,
    ConvertGPUResource koordGPU200 KoordGPUExist = Some canonical
    /\ is_Some (canonical !! ResourceGPUCore)
    /\ size canonical = 2%nat
    /\ forall name, is_Some (canonical !! name) -> In name patchedNames.
Proof.
  apply (convert_keeps_canonical_names koordGPU200 KoordGPUExist). reflexivity.
Defined.


(** X7: Converting settles a request: the request made of a validated one
    validates again, with the mask of core-share and memory bytes when the
    memory was given in bytes and of core-share and memory-ratio otherwise,
    and converting it under that mask gives it back unchanged. For the
    native whole-device name this needs 100 times the count to fit an
    [int64]. *)
Theorem convert_settles podRequest mask :
  ValidateGPURequest podRequest = (mask, None) ->
  (mask = NvidiaGPUExist ->
   Go.in_int64 (100 * Value (rl_index podRequest ResourceNvidiaGPU))) ->
  ValidateGPURequest (ConvertGPUResource podRequest mask) = (canonicalMask mask, None)
  /\ ConvertGPUResource (ConvertGPUResource podRequest mask) (canonicalMask mask)
     = ConvertGPUResource podRequest mask.
Proof.
  intros Hv Hfit. destruct (validate_ok _ _ Hv) as (Hne & Hm & Hvalid).
  pose proof (validate_ok_quantities _ _ Hv) as Hok.
  assert (forall name, In name gpuRatioNames ->
            ratioOK (Value (rl_index podRequest name))) as Hidx.
  { intros name Hin. unfold rl_index.
    destruct (rl_get podRequest name) as [q|] eqn:E; [now apply (Hok name)|].
    left. cbn. lia. }
  assert (forall (a b : Quantity) (k2 : string),
            k2 = ResourceGPUMemory \/ k2 = ResourceGPUMemoryRatio ->
            ratioOK (Value a) ->
            (k2 = ResourceGPUMemoryRatio -> ratioOK (Value b)) ->
            let c : ResourceList := Some {[ ResourceGPUCore := a; k2 := b ]} in
            let m := if String.eqb k2 ResourceGPUMemory
                     then Z.lor GPUCoreExist GPUMemoryExist
                     else Z.lor GPUCoreExist GPUMemoryRatioExist in
            ValidateGPURequest c = (m, None) /\ ConvertGPUResource c m = c) as Hcanon.
  { intros a b k2 Hk2 Ha Hb c m. subst c m. split.
    - rewrite validate_gpu_mask.
      + destruct Hk2 as [-> | ->]; reflexivity.
      + destruct Hk2 as [-> | ->]; reflexivity.
      + intros name q Hin Hget.
        destruct Hk2 as [-> | ->];
          destruct Hin as [<- | [<- | [<- | []]]]; vm_compute in Hget;
          try discriminate; injection Hget as <-; auto.
    - destruct Hk2 as [-> | ->]; reflexivity. }
  destruct (convert_shape _ _ Hne Hvalid)
    as (a & b & [(-> & -> & -> & ->) | (-> & Hnm & Hr & Hk & Hn)]).
  - apply (Hcanon _ _ ResourceGPUMemory); [tauto | | discriminate].
    apply Hidx. simpl. tauto.
  - assert (canonicalMask mask = Z.lor GPUCoreExist GPUMemoryRatioExist) as ->.
    { unfold canonicalMask. now destruct (Z.eqb_spec mask (Z.lor GPUCoreExist GPUMemoryExist)). }
    assert (ratioOK (Value a) /\ ratioOK (Value b)) as [Ha Hb].
    { destruct Hvalid as [-> | [-> | [-> | ->]]].
      - destruct (Hn eq_refl) as [-> ->]. cbn [Value].
        unfold Go.int64_mul.
        rewrite (Z.mul_comm _ 100), (wrap64_id _ (Hfit eq_refl)).
        assert (ratioOK (100 * Value (rl_index podRequest ResourceNvidiaGPU))); [|tauto].
        right. rewrite Z.mul_comm. apply Z.rem_mul. lia.
      - destruct (Hk eq_refl) as [-> ->].
        assert (ratioOK (Value (rl_index podRequest ResourceGPU))); [|tauto].
        apply Hidx. simpl. tauto.
      - contradiction.
      - destruct (Hr eq_refl) as [-> ->]. split; apply Hidx; simpl; tauto. }
    apply (Hcanon a b ResourceGPUMemoryRatio); tauto.
Qed.

Lemma convert_settles_witness :
  ValidateGPURequest (ConvertGPUResource nvidiaTwo NvidiaGPUExist)
  = (canonicalMask NvidiaGPUExist, None)
  /\ ConvertGPUResource (ConvertGPUResource nvidiaTwo NvidiaGPUExist)
       (canonicalMask NvidiaGPUExist)
     = ConvertGPUResource nvidiaTwo NvidiaGPUExist.
Proof.
  apply (convert_settles nvidiaTwo NvidiaGPUExist); [reflexivity|].
  intros _. vm_compute. split; discriminate.
Defined.

(** X8: [fillGPUTotalMem] fails exactly on the [nil] request, where it
    writes to a [nil] map. On any other request it leaves a request that
    holds memory bytes, agrees with the given one on every name but memory
    bytes and memory-ratio, keeps the memory bytes it was given, and
    without them keeps the memory-ratio entry as it was, absent included. *)
Theorem fill_frame convIndefinite activeMinor nodeDeviceTotal podRequest :
  match podRequest with
  | None =>
      fillGPUTotalMem convIndefinite activeMinor nodeDeviceTotal podRequest
      = Go.Panic Go.NilMapWrite
  | Some request =>
      exists filled,
        fillGPUTotalMem convIndefinite activeMinor nodeDeviceTotal podRequest
        = Go.Ok (Some filled)
        /\ is_Some (filled !! ResourceGPUMemory)
        /\ (forall name, name <> ResourceGPUMemory ->
                         name <> ResourceGPUMemoryRatio ->
                         filled !! name = request !! name)
        /\ match request !! ResourceGPUMemory with
           | Some gpuMem =>
               filled !! ResourceGPUMemory = Some gpuMem
               /\ is_Some (filled !! ResourceGPUMemoryRatio)
           | None =>
               filled !! ResourceGPUMemoryRatio = request !! ResourceGPUMemoryRatio
           end
  end.
Proof.
  destruct podRequest as [request|]; [|apply fill_nil].
  unfold fillGPUTotalMem. rewrite memRatioToBytes_total.
  cbn [rl_get]. unfold ResourceName.
  destruct (request !! ResourceGPUMemory) as [gpuMem|] eqn:Hmem.
  - cbn [rl_store]. eexists. split; [reflexivity|].
    split; [rewrite lookup_insert_ne by discriminate; rewrite Hmem; eauto|].
    split; [intros name _ Hn; now rewrite lookup_insert_ne by congruence|].
    split; [now rewrite lookup_insert_ne by discriminate|].
    rewrite lookup_insert_eq; eauto.
  - cbn [mbind Go.result_bind rl_store]. eexists. split; [reflexivity|].
    split; [rewrite lookup_insert_eq; eauto|].
    split; [intros name Hn _; now rewrite lookup_insert_ne by congruence|].
    now rewrite lookup_insert_ne by discriminate.
Qed.

(** X9: After validating and converting, [fillGPUTotalMem] succeeds and the
    request holds exactly the three names that are patched into the
    container: core-share, memory bytes and memory-ratio. *)
Theorem validated_fill_names convIndefinite activeMinor nodeDeviceTotal podRequest mask :
  ValidateGPURequest podRequest = (mask, None) ->
  exists filled,
    fillGPUTotalMem convIndefinite activeMinor nodeDeviceTotal
      (ConvertGPUResource podRequest mask) = Go.Ok (Some filled)
    /\ forall name, is_Some (filled !! name) <-> In name patchedNames.
Proof.
  intros Hv. destruct (validate_ok _ _ Hv) as (Hne & _ & Hvalid).
  assert (forall (a b : Quantity) (x : Quantity) (k : string),
            (k = ResourceGPUMemory \/ k = ResourceGPUMemoryRatio) ->
            forall k', (k' = ResourceGPUMemory \/ k' = ResourceGPUMemoryRatio) ->
            k' <> k ->
            forall name,
              is_Some ((<[k' := x]> ({[ ResourceGPUCore := a; k := b ]} : gmap string Quantity)) !! name)
              <-> In name patchedNames) as Hnames.
  { intros a b x k Hk k' Hk' Hd name. unfold patchedNames.
    destruct (decide (name = k')) as [->|N1].
    { rewrite lookup_insert_eq. split; [intros _|eauto].
      destruct Hk' as [-> | ->]; simpl; tauto. }
    rewrite lookup_insert_ne by congruence.
    destruct (decide (name = ResourceGPUCore)) as [->|N2].
    { rewrite lookup_insert_eq. split; [intros _; simpl; tauto|eauto]. }
    rewrite lookup_insert_ne by congruence.
    destruct (decide (name = k)) as [->|N3].
    { rewrite lookup_singleton_eq. split; [intros _|eauto].
      destruct Hk as [-> | ->]; simpl; tauto. }
    rewrite lookup_singleton_ne by congruence.
    split; [intros [? [=]]|].
    intros [<- | [<- | [<- | []]]]; try congruence;
      destruct Hk as [-> | ->], Hk' as [-> | ->]; congruence. }
  destruct (convert_shape _ _ Hne Hvalid)
    as (a & b & [(-> & _) | (-> & _)]).
  - eexists. split; [reflexivity|].
    apply Hnames; [tauto | tauto | discriminate].
  - unfold fillGPUTotalMem. rewrite memRatioToBytes_total.
    eexists. split; [reflexivity|].
    apply Hnames; [tauto | tauto | discriminate].
Qed.

Lemma validated_fill_names_witness :
  exists filled,
    fillGPUTotalMem Go.amd64_indefinite 0 oneDevice
      (ConvertGPUResource koordGPU200 KoordGPUExist) = Go.Ok (Some filled)
    /\ forall name, is_Some (filled !! name) <-> In name patchedNames.
Proof.
  apply (validated_fill_names Go.amd64_indefinite 0 oneDevice
           koordGPU200 KoordGPUExist).
  reflexivity.
Defined.

End ConvertExtras.

Module MultipleFacts.
Import Resource Corev1 Apiext Deviceshare DeviceshareSpec DeviceshareHelpers HelperSpec.
Import ValidateFacts ConvertFacts HelperFacts.

Lemma wholeMultiple_ratioOK v :
  ratioOK v -> wholeMultiple v = (100 <? v).
Proof.
  unfold wholeMultiple, ratioOK, Go.int64_rem. intros [H | H].
  - assert ((100 <? v) = false) as -> by (apply Z.ltb_ge; lia). reflexivity.
  - rewrite H. cbn. apply andb_true_r.
Qed.

Lemma rl_index_ratioOK podRequest name :
  gpuQuantitiesOK podRequest -> In name gpuRatioNames ->
  ratioOK (Value (rl_index podRequest name)).
Proof.
  intros Hok Hin. unfold rl_index.
  destruct (rl_get podRequest name) as [q|] eqn:E; [now apply (Hok name)|].
  left. cbn. lia.
Qed.

Lemma patchRequests_idem podRequest reqs :
  patchRequests podRequest (patchRequests podRequest reqs)
  = patchRequests podRequest reqs.
Proof.
  apply map_eq. intros k.
  destruct (in_dec string_dec k patchedNames) as [Hin | Hout].
  - now rewrite !PatchFacts.patchRequests_written.
  - now rewrite PatchFacts.patchRequests_kept.
Qed.

Lemma patchRequests_not_valid podRequest reqs :
  snd (ValidateGPURequest (Some (patchRequests podRequest reqs))) <> None.
Proof.
  intros Hnone.
  destruct (ValidateGPURequest (Some (patchRequests podRequest reqs)))
    as [mask e] eqn:Hv.
  cbn [snd] in Hnone. subst e.
  destruct (validate_ok _ _ Hv) as (Hne & Hm & Hvalid).
  revert Hm Hvalid. unfold presenceMask, gpuBits, rl_has. cbn [fold_right fst snd rl_get].
  unfold ResourceName.
  rewrite (PatchFacts.patchRequests_written _ _ ResourceGPUCore),
    (PatchFacts.patchRequests_written _ _ ResourceGPUMemory),
    (PatchFacts.patchRequests_written _ _ ResourceGPUMemoryRatio) by (simpl; tauto).
  intros Hm Hvalid. subst mask.
  destruct (patchRequests podRequest reqs !! ResourceNvidiaGPU),
    (patchRequests podRequest reqs !! ResourceGPU);
    destruct Hvalid as [H | [H | [H | H]]]; vm_compute in H; discriminate H.
Qed.

Lemma threeContainers_first :
  firstGPUContainer threeContainersStore (Containers threeContainers) 2%nat
    {| ContainerName := "main"; Requests := Some 2%positive |} 2%positive.
Proof.
  split; [reflexivity|]. split; [reflexivity|]. split.
  - exists ResourceNvidiaGPU. split; [simpl; tauto | vm_compute; eauto].
  - intros j c' l' Hj Hc Hl. apply PatchFacts.needPatch_false.
    destruct j as [|[|j]]; [| |lia]; vm_compute in Hc; injection Hc as <-;
      vm_compute in Hl; [discriminate | injection Hl as <-; reflexivity].
Defined.

End MultipleFacts.

Module HelperExtras.
Import Resource Corev1 Apiext Deviceshare DeviceshareSpec DeviceshareHelpers HelperSpec.
Import ValidateFacts ConvertFacts HelperFacts MultipleFacts PatchFacts ConvertExtraFacts.

(** X10: On a request that [ValidateGPURequest] accepts, [isMultipleGPUPod]
    tells whether the core-share is above 100: the multiple-of-100 test it
    makes is decided by the validation. *)
Theorem multiple_gpu_after_validation podRequest mask :
  ValidateGPURequest podRequest = (mask, None) ->
  isMultipleGPUPod podRequest
  = (100 <? Value (rl_index podRequest ResourceGPUCore)).
Proof.
  intros Hv. destruct (validate_ok _ _ Hv) as (Hne & _ & _).
  unfold isMultipleGPUPod. rewrite Hne.
  apply wholeMultiple_ratioOK, rl_index_ratioOK.
  - exact (validate_ok_quantities _ _ Hv).
  - simpl. tauto.
Qed.

Lemma multiple_gpu_after_validation_witness :
  isMultipleGPUPod core200
  = (100 <? Value (rl_index core200 ResourceGPUCore)).
Proof.
  apply (multiple_gpu_after_validation core200 (Z.lor GPUCoreExist GPUMemoryRatioExist)).
  reflexivity.
Defined.

(** X11: On a request that [validateCommonDeviceRequest] accepts for a device
    type, [isMultipleCommonDevicePod] tells whether the value under the
    device's name is above 100. *)
Theorem multiple_common_after_validation podRequest t :
  validateCommonDeviceRequest podRequest t = None ->
  isMultipleCommonDevicePod podRequest t
  = (100 <? Value (rl_index podRequest (commonDeviceName t))).
Proof.
  unfold validateCommonDeviceRequest, isMultipleCommonDevicePod.
  destruct (rl_empty podRequest); [discriminate|].
  destruct t; [discriminate | |]; cbn [commonDeviceName];
    match goal with
    | |- context [badRatio ?v] => destruct (badRatio v) eqn:Hbad
    end; try discriminate; intros _;
    apply wholeMultiple_ratioOK, badRatio_false, Hbad.
Qed.

Lemma multiple_common_after_validation_witness :
  isMultipleCommonDevicePod rdma300 RDMA
  = (100 <? Value (rl_index rdma300 (commonDeviceName RDMA))).
Proof.
  apply (multiple_common_after_validation rdma300 RDMA). reflexivity.
Defined.

(** X12: [convertCommonDeviceResource] returns a request exactly when
    [hasDeviceResource] finds the name of an RDMA or FPGA device: then the
    request it returns is that single entry, and [nil] otherwise, for the
    GPU type included. *)
Theorem convert_common_single podRequest t :
  convertCommonDeviceResource podRequest t
  = match t with
    | GPU => None
    | _ =>
        if hasDeviceResource podRequest t
        then Some {[ commonDeviceName t := rl_index podRequest (commonDeviceName t) ]}
        else None
    end.
Proof.
  unfold convertCommonDeviceResource, hasDeviceResource, rl_index, rl_has.
  destruct (rl_empty podRequest); [now destruct t|].
  destruct t; cbn [DeviceResourceNames existsb commonDeviceName]; [reflexivity | |];
    match goal with
    | |- context [rl_get ?r ?n] => destruct (rl_get r n)
    end; reflexivity.
Qed.

(** X13: What [convertCommonDeviceResource] returns is settled: converting it
    again gives it back, and [validateCommonDeviceRequest] answers on it as
    on the request it was made of. *)
Theorem convert_common_settles podRequest t single :
  convertCommonDeviceResource podRequest t = Some single ->
  convertCommonDeviceResource (Some single) t = Some single
  /\ validateCommonDeviceRequest (Some single) t
     = validateCommonDeviceRequest podRequest t.
Proof.
  unfold convertCommonDeviceResource, validateCommonDeviceRequest, rl_index.
  destruct (rl_empty podRequest); [discriminate|].
  destruct t; [discriminate | |];
    match goal with
    | |- context [rl_get podRequest ?n] => destruct (rl_get podRequest n) as [q|]
    end; try discriminate; intros [= <-]; split; reflexivity.
Qed.

Lemma convert_common_settles_witness :
  convertCommonDeviceResource (Some {[ ResourceRDMA := quantity 300 ]}) RDMA
  = Some {[ ResourceRDMA := quantity 300 ]}
  /\ validateCommonDeviceRequest (Some {[ ResourceRDMA := quantity 300 ]}) RDMA
     = validateCommonDeviceRequest rdma300 RDMA.
Proof.
  apply (convert_common_settles rdma300 RDMA). reflexivity.
Defined.

(** X14: For a ratio and a total that are not negative and whose product fits
    an [int64], [memRatioToBytes] returns the product divided by 100 and
    rounded down, in the binary format; for a ratio of at most 100 that is
    at most the total. The division is by the constant 100, so there is no
    failure. *)
Theorem ratio_to_bytes_floor ratio totalMemory :
  0 <= Value ratio -> 0 <= Value totalMemory ->
  Go.in_int64 (Value ratio * Value totalMemory) ->
  memRatioToBytes ratio totalMemory
  = Go.Ok (NewQuantity (Value ratio * Value totalMemory / 100) BinarySI)
  /\ 0 <= Value ratio * Value totalMemory / 100
  /\ (Value ratio <= 100 ->
      Value ratio * Value totalMemory / 100 <= Value totalMemory).
Proof.
  intros Hr Ht Hfit.
  assert (0 <= Value ratio * Value totalMemory) as Hp by nia.
  assert (0 <= Value ratio * Value totalMemory / 100
          <= Value ratio * Value totalMemory) as Hq.
  { split; [apply Z.div_pos; lia|]. apply Z.div_le_upper_bound; lia. }
  split; [|split; [tauto|]].
  - rewrite memRatioToBytes_total. unfold Go.int64_mul.
    rewrite (wrap64_id _ Hfit), Z.quot_div_nonneg by lia.
    rewrite wrap64_id; [reflexivity|].
    unfold Go.in_int64 in *. unfold Go.int64_min in *. lia.
  - intros Hle. apply Z.div_le_upper_bound; [lia|]. nia.
Qed.

Lemma ratio_to_bytes_floor_witness :
  memRatioToBytes ratio75 memory4096
  = Go.Ok (NewQuantity (Value ratio75 * Value memory4096 / 100) BinarySI)
  /\ 0 <= Value ratio75 * Value memory4096 / 100
  /\ (Value ratio75 <= 100 ->
      Value ratio75 * Value memory4096 / 100 <= Value memory4096).
Proof.
  apply (ratio_to_bytes_floor ratio75 memory4096);
    [vm_compute; discriminate | vm_compute; discriminate
    | vm_compute; split; discriminate].
Defined.

(** X15: The test [patchContainerGPUResource] makes on a container's request
    map is the one [hasDeviceResource] makes for the GPU type. *)
Theorem need_patch_has_gpu reqs :
  needPatch reqs = hasDeviceResource (Some reqs) GPU.
Proof.
  unfold hasDeviceResource.
  destruct (rl_empty (Some reqs)) eqn:Hne.
  - apply rl_empty_spec in Hne as [|[= ->]]; [discriminate|]. reflexivity.
  - unfold needPatch, rl_has. cbn [rl_get DeviceResourceNames existsb].
    unfold ResourceName.
    repeat match goal with
           | |- context [bool_decide (is_Some (reqs !! ?n))] =>
               destruct (reqs !! n)
           end; reflexivity.
Qed.

(** X16: Patching is idempotent: a second call with the same canonical request
    leaves the store as the first call left it. *)
Theorem patch_idempotent pod podRequest (σ : store) :
  patchContainerGPUResource pod podRequest
    (patchContainerGPUResource pod podRequest σ)
  = patchContainerGPUResource pod podRequest σ.
Proof.
  unfold patchContainerGPUResource.
  destruct (first_or_none σ (Containers pod)) as [Hnone | (i & c & l & Hfirst)].
  - now rewrite !(patchContainers_none _ _ _ Hnone).
  - rewrite (patchContainers_first _ podRequest σ i c l Hfirst).
    set (σ' := <[l := patchRequests podRequest (deref σ l)]> σ).
    assert (firstGPUContainer σ' (Containers pod) i c l) as Hfirst'.
    { destruct Hfirst as (Hi & Hl & Hg & Hbefore).
      split; [assumption|]. split; [assumption|]. split.
      - subst σ'. rewrite deref_insert_eq.
        exists ResourceGPUCore. split; [simpl; tauto|].
        rewrite patchRequests_written by (simpl; tauto). eauto.
      - intros j c' l' Hj Hc' Hl'.
        assert (l <> l') as Hne.
        { intros <-. exact (Hbefore j c' l Hj Hc' Hl' Hg). }
        subst σ'. rewrite (deref_insert_ne _ _ _ _ Hne).
        exact (Hbefore j c' l' Hj Hc' Hl'). }
    rewrite (patchContainers_first _ podRequest σ' i c l Hfirst').
    subst σ'. rewrite deref_insert_eq, patchRequests_idem.
    apply insert_insert_eq.
Qed.

(** X17: The request map of the container that is patched then holds
    core-share, memory bytes and memory-ratio together, which is none of
    the combinations [ValidateGPURequest] accepts: validating the patched
    map fails. *)
Theorem patched_container_not_valid pod podRequest (σ : store) i c l :
  firstGPUContainer σ (Containers pod) i c l ->
  exists e,
    snd (ValidateGPURequest
           (Some (deref (patchContainerGPUResource pod podRequest σ) l)))
    = Some e.
Proof.
  intros Hfirst. unfold patchContainerGPUResource.
  rewrite (patchContainers_first _ podRequest σ i c l Hfirst), deref_insert_eq.
  pose proof (patchRequests_not_valid podRequest (deref σ l)) as H.
  destruct (snd (ValidateGPURequest (Some (patchRequests podRequest (deref σ l)))))
    as [e|]; [now exists e | contradiction].
Qed.

Lemma patched_container_not_valid_witness :
  exists e,
    snd (ValidateGPURequest
           (Some (deref (patchContainerGPUResource threeContainers canonicalRequest
                           threeContainersStore) 2%positive)))
    = Some e.
Proof.
  apply (patched_container_not_valid threeContainers canonicalRequest
           threeContainersStore 2%nat
           {| ContainerName := "main"; Requests := Some 2%positive |}).
  exact threeContainers_first.
Defined.

End HelperExtras.

Module RatioRangeFacts.
Import Go Resource Corev1 Apiext Deviceshare DeviceshareSpec Float64Spec Float64Facts.

Lemma val_one : val (2 ^ 52) (-52) = 1%R.
Proof.
  unfold val. rewrite <- (bpow_IZR 52) by lia.
  rewrite <- bpow_add. apply bpow_0.
Qed.

Lemma u_bounds : (0 < u /\ u < / 1000)%R.
Proof.
  unfold u. split.
  - apply Rinv_0_lt_compat, IZR_lt. reflexivity.
  - apply Rinv_lt_contravar; [|apply IZR_lt; reflexivity].
    apply Rmult_lt_0_compat; [lra | apply IZR_lt; reflexivity].
Qed.

(** The float64 product b / T * 100 for 0 < b <= T < 2^53: finite,
    positive and below 101, and exactly 100 when b = T. *)
Lemma ratio_product b T :
  0 < b <= T -> T < 2 ^ 53 ->
  exists m e,
    float64_mul (float64_div (float64_of_int64 b) (float64_of_int64 T))
                (float64_of_int64 100)
    = S754_finite false m e
    /\ (0 < val (Zpos m) e < 101)%R
    /\ (b = T -> val (Zpos m) e = 100%R).
Proof.
  intros Hb HT.
  destruct (of_int_R T ltac:(lia)) as (mT & eT & -> & NT & HeT & VT).
  destruct (of_int_R b ltac:(lia)) as (mb & eb & -> & Nb & Heb & Vb).
  destruct hundred_float as (-> & NH & VH).
  destruct (div_R mb eb mT eT Nb NT ltac:(lia) ltac:(lia))
    as (mQ & eQ & -> & NQ & HeQ & HQ & XQ).
  destruct (mul_R mQ eQ 7036874417766400 (-46) NQ NH ltac:(lia) ltac:(lia))
    as (mP & eP & -> & NP & HeP & HP & XP).
  exists mP, eP. split; [reflexivity|].
  rewrite Vb, VT in HQ, XQ. rewrite VH in HP, XP.
  set (Q := val (Zpos mQ) eQ) in *. set (P := val (Zpos mP) eP) in *.
  assert (0 < IZR b)%R as HB by (apply IZR_lt; lia).
  assert (IZR b <= IZR T)%R as HBT by (apply IZR_le; lia).
  set (B := IZR b) in *. set (Tr := IZR T) in *.
  assert (0 < B / Tr <= 1)%R as Hq.
  { split; [apply Rdiv_lt_0_compat; lra|].
    apply (Rmult_le_reg_r Tr); [lra|]. unfold Rdiv.
    rewrite Rmult_assoc, Rinv_l by lra. lra. }
  destruct u_bounds as [Hu0 Hu1].
  apply Rabs_bound in HQ. apply Rabs_bound in HP.
  assert (0 < Q <= 1 + u)%R as HQb by nra.
  split; [nra|].
  intros ->.
  assert (B / Tr = 1)%R as E1 by (unfold B, Tr; field; fold Tr; lra).
  destruct (XQ (2 ^ 52) (-52) ltac:(lia)) as [EmQ EeQ];
    [rewrite E1; symmetry; exact val_one|].
  assert (Q = 1%R) as EQ by (unfold Q; rewrite EmQ, EeQ; exact val_one).
  destruct (XP 7036874417766400 (-46) ltac:(unfold normalized in NH; lia)) as [EmP EeP];
    [rewrite EQ, <- VH; ring|].
  unfold P. now rewrite EmP, EeP.
Qed.

End RatioRangeFacts.

Module RatioRangeExtras.
Import Go Resource Corev1 Apiext Deviceshare DeviceshareSpec HelperSpec.
Import Float64Spec Float64Facts RatioRangeFacts.

(** X18: For bytes between 0 and a total below 2^53, the memory-ratio
    [memBytesToRatio] returns lies between 0 and 100; it is 0 for 0 bytes
    and 100 for the whole total. *)
Theorem bytes_to_ratio_range convIndefinite bytes totalMemory :
  0 <= Value bytes <= Value totalMemory ->
  0 < Value totalMemory < 2 ^ 53 ->
  0 <= Value (memBytesToRatio convIndefinite bytes totalMemory) <= 100
  /\ (Value bytes = 0 ->
      Value (memBytesToRatio convIndefinite bytes totalMemory) = 0)
  /\ (Value bytes = Value totalMemory ->
      Value (memBytesToRatio convIndefinite bytes totalMemory) = 100).
Proof.
  destruct bytes as [b fb], totalMemory as [T fT]. cbn [Value].
  intros Hb HT. unfold memBytesToRatio. cbn [Value].
  destruct (Z.eq_dec b 0) as [-> | Hb0].
  - destruct (of_int_R T HT) as (mT & eT & -> & _).
    destruct hundred_float as (-> & _).
    change (float64_of_int64 0) with (S754_zero false).
    unfold float64_div, float64_mul. cbn [SFdiv SFmul xorb float64_to_int64].
    split; [lia|]. split; [reflexivity | lia].
  - destruct (ratio_product b T ltac:(lia) ltac:(lia)) as (m & e & -> & HP & HX).
    pose proof (to_int_R convIndefinite m e) as Hr.
    set (r := float64_to_int64 convIndefinite (S754_finite false m e)) in *.
    assert (IZR r <= val (Z.pos m) e < IZR r + 1)%R as [Hlo Hhi].
    { apply Hr. apply Rlt_trans with (1 := proj2 HP).
      apply IZR_lt. reflexivity. }
    assert (-1 < r)%Z as Hr0 by (apply lt_IZR; lra).
    assert (r < 101)%Z as Hr1 by (apply lt_IZR; lra).
    split; [lia|]. split; [lia|].
    intros E. rewrite (HX E) in Hlo, Hhi.
    assert (99 < r)%Z by (apply lt_IZR; lra). lia.
Qed.

Lemma bytes_to_ratio_range_witness :
  0 <= Value (memBytesToRatio amd64_indefinite (quantity 1024) memory4096) <= 100.
Proof.
  apply (bytes_to_ratio_range amd64_indefinite (quantity 1024) memory4096);
    vm_compute; split; congruence.
Defined.

End RatioRangeExtras.

Module ReservePodFacts.
Import Reservation ReservationFacts ReservationEvents.

Lemma len_pos s : (0 <? len s) = true <-> s <> "".
Proof.
  unfold len. destruct s; cbn; split; try congruence; try discriminate.
  intros _. apply Z.ltb_lt. lia.
Qed.

Lemma len_zero s : (0 <? len s) = false -> s = "".
Proof.
  destruct s; [reflexivity|]. unfold len. cbn. intros H.
  apply Z.ltb_ge in H. lia.
Qed.

Lemma len_le_zero s : (len s <=? 0) = negb (0 <? len s).
Proof.
  destruct (Z.leb_spec (len s) 0), (Z.ltb_spec 0 (len s)); try reflexivity; lia.
Qed.

(** The copying loop gives the source's entries priority over those
    already in the destination. *)
Lemma rangeAssign_union src dst :
  rangeAssign src dst = orEmpty src ∪ dst.
Proof.
  destruct src as [s|]; cbn [rangeAssign orEmpty]; [|now rewrite (left_id_L ∅ (∪))].
  apply (map_fold_weak_ind (fun r m => r = m ∪ dst)).
  - now rewrite (left_id_L ∅ (∪)).
  - intros k v m r _ ->. now rewrite insert_union_l.
Qed.

Lemma IsReservationExpired_failed r :
  IsReservationExpired r = true -> IsReservationFailed r = true.
Proof.
  destruct r as [r|]; cbn; [|discriminate].
  now destruct (String.eqb (RPhase r) ReservationFailed).
Qed.

(** The pod built from a reservation carries the reserve-pod mark. *)
Lemma NewReservePod_marked prefix r :
  IsReservePod prefix (Some (NewReservePod prefix r)) = true.
Proof.
  destruct (NewReservePod_annotations prefix r) as (a & Ha & Hpod & _).
  unfold IsReservePod, index. now rewrite Ha, Hpod.
Qed.

(** Case analysis on the tests [NewReservePod] makes, on a reservation
    taken apart into its fields. *)
Ltac reserve_pod_fields r :=
  let t := fresh "t" in
  destruct r as [[? ? ? ? ?] [t|] ? ? ?];
  [destruct t as [[? ? ? ? ?] [? ?]]|].

Lemma len_nil_pos : (0 <? len "") = false.
Proof. reflexivity. Qed.

Lemma len_nil_le : (len "" <=? 0) = true.
Proof. reflexivity. Qed.

Lemma len_cons_pos a s : (0 <? len (String a s)) = true.
Proof. reflexivity. Qed.

Lemma len_cons_le a s : (len (String a s) <=? 0) = false.
Proof. reflexivity. Qed.

Ltac reserve_pod_eval :=
  cbn [emptyPod emptyMeta setMeta setSpec setPhase setName setUID setNamespace
       setLabels setAnnotations setNodeName setSchedulerName
       PodMeta Spec Phase Name Namespace UID Labels Annotations NodeName
       SchedulerName TemplateMeta TemplateSpec RMeta Template RPhase RNodeName
       Conditions GetReservationKey GetReservePodKey GetReservationNodeName
       GetReservationSchedulerName GetReservePodNodeName orEmpty index
       String.eqb fst snd];
  rewrite ?len_cons_pos, ?len_cons_le, ?len_nil_pos, ?len_nil_le.

Ltac reserve_pod_tests :=
  repeat (reserve_pod_eval;
          match goal with
          | |- context [len ?s] => is_var s; destruct s
          | |- context [if ?b then _ else _] =>
              lazymatch b with
              | context [len _] => fail
              | _ => destruct b
              end
          end);
  reserve_pod_eval.

Lemma NewReservePod_UID prefix r :
  UID (PodMeta (NewReservePod prefix r)) = UID (RMeta r).
Proof.
  unfold NewReservePod. reserve_pod_fields r; reserve_pod_eval;
    reserve_pod_tests; reflexivity.
Qed.

Lemma NewReservePod_NodeName prefix r :
  NodeName (Spec (NewReservePod prefix r)) = GetReservationNodeName r.
Proof.
  unfold NewReservePod. reserve_pod_fields r; reserve_pod_eval;
    reserve_pod_tests; reflexivity.
Qed.

End ReservePodFacts.

Module ReservePodExtras.
Import Reservation ReservationFacts ReservationEvents ReservePodFacts.

(** X19: The reserve pod is named and keyed by the reservation's UID, not by
    its name or the template's: [GetReservePodKey] of the pod is
    [GetReservationKey] of the reservation. Its namespace is the
    template's when there is a template with a namespace, and the default
    namespace otherwise; the reservation's own namespace is not used. *)
Theorem reserve_pod_identity prefix r :
  GetReservePodKey (NewReservePod prefix r) = GetReservationKey r
  /\ Name (PodMeta (NewReservePod prefix r)) = GetReservationKey r
  /\ Namespace (PodMeta (NewReservePod prefix r))
     = match Template r with
       | Some t =>
           if String.eqb (Namespace (TemplateMeta t)) ""
           then NamespaceDefault
           else Namespace (TemplateMeta t)
       | None => NamespaceDefault
       end.
Proof.
  unfold NewReservePod. reserve_pod_fields r; reserve_pod_eval;
    reserve_pod_tests; repeat split; reflexivity.
Qed.

(** X20: The node the reserve pod is bound to is the reservation's status node,
    set or not, whatever the template says: a node name in the template
    only goes to the reservation-node annotation, where
    [GetReservePodNodeName] reads it. The scheduler name is the one
    [GetReservationSchedulerName] gives. *)
Theorem reserve_pod_node prefix r :
  NodeName (Spec (NewReservePod prefix r)) = GetReservationNodeName r
  /\ SchedulerName (Spec (NewReservePod prefix r))
     = GetReservationSchedulerName (Some r)
  /\ (forall t, Template r = Some t -> NodeName (TemplateSpec t) <> "" ->
        GetReservePodNodeName prefix (NewReservePod prefix r)
        = NodeName (TemplateSpec t)).
Proof.
  split; [apply NewReservePod_NodeName|]. split.
  - unfold NewReservePod. reserve_pod_fields r; reserve_pod_eval;
      reserve_pod_tests; reflexivity.
  - intros t Ht Hnode. unfold NewReservePod. rewrite Ht. clear Ht.
    destruct r as [[? ? ? ? ?] ? ? ? ?]. destruct t as [[? ? ? ? ?] [tnode ?]].
    cbn [TemplateSpec NodeName] in Hnode.
    destruct tnode; [congruence|].
    reserve_pod_tests; now rewrite lookup_insert_eq.
Qed.

Lemma reserve_pod_node_witness :
  GetReservePodNodeName "scheduling.koordinator.sh"
    (NewReservePod "scheduling.koordinator.sh" scheduledReservation)
  = "node-1".
Proof.
  apply (proj2 (proj2 (reserve_pod_node "scheduling.koordinator.sh"
                         scheduledReservation))
           {| TemplateMeta :=
                {| Name := "tpl"; Namespace := "batch"; UID := "";
                   Labels := Some {[ "tier" := "silver"; "app" := "train" ]};
                   Annotations := None |};
              TemplateSpec := {| NodeName := "node-1";
                                 SchedulerName := "koord-scheduler" |} |}).
  - reflexivity.
  - discriminate.
Defined.

(** X21: An expired reservation is a failed one, so the phase of the reserve
    pod follows the reservation's phase alone: succeeded, failed, or left
    empty. *)
Theorem reserve_pod_phase prefix r :
  (IsReservationExpired (Some r) || IsReservationFailed (Some r)
   = IsReservationFailed (Some r))
  /\ Phase (NewReservePod prefix r)
     = if IsReservationSucceeded (Some r) then PodSucceeded
       else if IsReservationFailed (Some r) then PodFailed
       else "".
Proof.
  assert (IsReservationExpired (Some r) || IsReservationFailed (Some r)
          = IsReservationFailed (Some r)) as Hor.
  { pose proof (IsReservationExpired_failed (Some r)) as H.
    destruct (IsReservationExpired (Some r)), (IsReservationFailed (Some r));
      try reflexivity. discriminate (H eq_refl). }
  split; [exact Hor|].
  unfold NewReservePod. rewrite Hor.
  destruct (IsReservationSucceeded (Some r)), (IsReservationFailed (Some r));
    reserve_pod_fields r; reserve_pod_eval; reserve_pod_tests; reflexivity.
Qed.

(** X22: The labels of the reserve pod are never [nil]: they are the
    reservation's labels over the template's, the reservation's winning on
    a shared key. *)
Theorem reserve_pod_labels prefix r :
  Labels (PodMeta (NewReservePod prefix r))
  = Some (orEmpty (Labels (RMeta r))
          ∪ orEmpty (match Template r with
                     | Some t => Labels (TemplateMeta t)
                     | None => None
                     end)).
Proof.
  unfold NewReservePod. rewrite !rangeAssign_union.
  reserve_pod_fields r; reserve_pod_eval; reserve_pod_tests; reflexivity.
Qed.

(** X23: The annotations of the reserve pod are never [nil]; apart from the
    three keys the function writes itself, they are the reservation's
    annotations over the template's. *)
Theorem reserve_pod_annotations prefix r :
  exists annotations,
    Annotations (PodMeta (NewReservePod prefix r)) = Some annotations
    /\ forall k,
         k <> AnnotationReservePod prefix ->
         k <> AnnotationReservationName prefix ->
         k <> AnnotationReservationNode prefix ->
         annotations !! k
         = (orEmpty (Annotations (RMeta r))
            ∪ orEmpty (match Template r with
                       | Some t => Annotations (TemplateMeta t)
                       | None => None
                       end)) !! k.
Proof.
  unfold NewReservePod. rewrite !rangeAssign_union.
  reserve_pod_fields r; reserve_pod_eval; reserve_pod_tests;
    eexists; (split; [reflexivity|]); intros k H1 H2 H3;
    now rewrite !lookup_insert_ne by congruence.
Qed.

(** X24: The available reservations are the active ones in the available
    phase, and the reserve pod of an active reservation is bound to the
    reservation's status node, which is set. *)
Theorem active_reservation_pod prefix r :
  IsReservationAvailable (Some r)
  = IsReservationActive (Some r) && String.eqb (RPhase r) ReservationAvailable
  /\ (IsReservationActive (Some r) = true ->
      NodeName (Spec (NewReservePod prefix r)) = GetReservationNodeName r
      /\ GetReservationNodeName r <> "").
Proof.
  split.
  - unfold IsReservationAvailable, IsReservationActive.
    destruct (0 <? len (GetReservationNodeName r)),
      (String.eqb (RPhase r) ReservationAvailable),
      (String.eqb (RPhase r) ReservationWaiting); reflexivity.
  - intros H. split; [apply NewReservePod_NodeName|].
    unfold IsReservationActive in H. apply andb_true_iff in H as [H _].
    now apply len_pos.
Qed.

Lemma active_reservation_pod_witness :
  NodeName (Spec (NewReservePod "scheduling.koordinator.sh" scheduledReservation))
  = GetReservationNodeName scheduledReservation
  /\ GetReservationNodeName scheduledReservation <> "".
Proof.
  apply (proj2 (active_reservation_pod "scheduling.koordinator.sh"
                  scheduledReservation)).
  reflexivity.
Defined.

(** X25: Whatever object an informer hands over, each of the three handlers
    forwards at most one event, and every pod it forwards is one
    [IsReservePod] recognizes. *)
Theorem handlers_forward_reserve_pods prefix oldObj obj events :
  OnAdd prefix obj = Go.Ok events
  \/ OnUpdate prefix oldObj obj = Go.Ok events
  \/ OnDelete prefix obj = Go.Ok events ->
  (length events <= 1)%nat
  /\ forall e pod, In e events -> In pod (eventPods e) ->
                   IsReservePod prefix (Some pod) = true.
Proof.
  assert (forall r pod, newReservePod prefix r = Go.Ok pod ->
                        IsReservePod prefix (Some pod) = true) as Hnew.
  { intros [r|] pod [= <-]. apply NewReservePod_marked. }
  unfold OnAdd, OnUpdate, OnDelete.
  intros [H | [H | H]].
  - destruct (asReservation obj) as [r|]; [|injection H as <-; split; [simpl; lia | intros ? ? []]].
    destruct (newReservePod prefix r) as [pod|] eqn:E; [|discriminate].
    injection H as <-. split; [simpl; lia|].
    intros e pod' [<- | []] [<- | []]. exact (Hnew _ _ E).
  - destruct (asReservation oldObj) as [oldR|];
      [|injection H as <-; split; [simpl; lia | intros ? ? []]].
    destruct (asReservation obj) as [newR|];
      [|injection H as <-; split; [simpl; lia | intros ? ? []]].
    destruct (newReservePod prefix oldR) as [oldPod|] eqn:E1; [|discriminate].
    destruct (newReservePod prefix newR) as [newPod|] eqn:E2; [|discriminate].
    injection H as <-. split; [simpl; lia|].
    intros e pod' [<- | []] [<- | [<- | []]]; [exact (Hnew _ _ E1) | exact (Hnew _ _ E2)].
  - match type of H with
    | match ?o with Some _ => _ | None => _ end = _ => destruct o as [r|]
    end; [|injection H as <-; split; [simpl; lia | intros ? ? []]].
    destruct (newReservePod prefix r) as [pod|] eqn:E; [|discriminate].
    injection H as <-. split; [simpl; lia|].
    intros e pod' [<- | []] [<- | []]. exact (Hnew _ _ E).
Qed.

Lemma handlers_forward_reserve_pods_witness :
  (length [PodDelete (NewReservePod "scheduling.koordinator.sh" scheduledReservation)]
   <= 1)%nat
  /\ forall e pod,
       In e [PodDelete (NewReservePod "scheduling.koordinator.sh" scheduledReservation)] ->
       In pod (eventPods e) ->
       IsReservePod "scheduling.koordinator.sh" (Some pod) = true.
Proof.
  apply (handlers_forward_reserve_pods "scheduling.koordinator.sh" ObjOther
           (ObjDeletedFinalStateUnknown (ObjReservation (Some scheduledReservation)))).
  right. right. reflexivity.
Defined.

End ReservePodExtras.
